(** * Upload-and-measurement engine of the Qdrant quantization benchmark

    A shallow embedding of [uploader.py], [benchmarking.py] and
    [qdrant_manager.py], and the properties of the batched upload, the retry
    policy, the latency protocol, the metric bundle and the accuracy score.

    Conventions of the embedding.
    - Python [int] is [Z]; [len] of a list is [Z.of_nat (length _)].
    - Python [float] is idealised as an exact rational ([Q]): rounding is not
      modelled.
    - The remote service is an opaque collaborator.  Every call made through
      the client handle is appended, in order, to a trace of events, and the
      answers of the service come from an oracle indexed by the ordinal of
      the call (the way a scripted test double answers).
    - Raising an exception keeps the events recorded so far: a failed run
      still has a trace.
    - [print] is not modelled. *)

From Stdlib Require Import QArith Qround Lqa.
From stdpp Require Import gmap strings list sorting pretty.

Close Scope Q_scope.
Open Scope Z_scope.

(** ** Python runtime: exceptions, ranges, slices *)

Module Py.

(** The exceptions the three modules raise or let through. *)
Inductive exn : Type :=
| ValueError (msg : string)
| ResponseHandlingException (msg : string)
| OtherException (msg : string).

Definition is_ResponseHandlingException (e : exn) : bool :=
  match e with
  | ResponseHandlingException _ => true
  | _ => false
  end.

Inductive outcome (A : Type) : Type :=
| Ok (a : A)
| Raise (e : exn).
Arguments Ok {A} a.
Arguments Raise {A} e.

(** A computation over a world [W]: the world after the run is returned
    also when the run raises. *)
Definition M (W A : Type) : Type := W -> outcome A * W.

Definition ret {W A} (a : A) : M W A := fun w => (Ok a, w).

Definition raise {W A} (e : exn) : M W A := fun w => (Raise e, w).

Definition bind {W A B} (m : M W A) (k : A -> M W B) : M W B :=
  fun w =>
    match m w with
    | (Ok a, w') => k a w'
    | (Raise e, w') => (Raise e, w')
    end.

(** [try: body except <class> as e: handler e]; exceptions outside the
    class [catches] propagate. *)
Definition try_except {W A} (body : M W A) (catches : exn -> bool)
    (handler : exn -> M W A) : M W A :=
  fun w =>
    match body w with
    | (Ok a, w') => (Ok a, w')
    | (Raise e, w') => if catches e then handler e w' else (Raise e, w')
    end.

Definition len {A} (l : list A) : Z := Z.of_nat (length l).

(** Number of elements of [range(start, stop, step)], [step <> 0]. *)
Definition range_len (start stop step : Z) : Z :=
  if 0 <? step then
    if start <? stop then (stop - start - 1) / step + 1 else 0
  else
    if stop <? start then (start - stop - 1) / (- step) + 1 else 0.

(** [range(start, stop, step)]; [None] is the [ValueError] of a zero step. *)
Definition range (start stop step : Z) : option (list Z) :=
  if step =? 0 then None
  else Some ((fun k => start + k * step) <$> seqZ 0 (range_len start stop step)).

(** A slice bound, as Python normalises it against the length. *)
Definition clamp_index (n i : Z) : Z :=
  if i <? 0 then Z.max 0 (i + n) else Z.min i n.

(** [l[lo:hi]] *)
Definition slice {A} (l : list A) (lo hi : Z) : list A :=
  let n := len l in
  let lo' := clamp_index n lo in
  let hi' := clamp_index n hi in
  take (Z.to_nat (hi' - lo')) (drop (Z.to_nat lo') l).

(** Truth value of an [Optional[str]]: [None] and the empty string are
    false. *)
Definition truthy_str (s : option string) : bool :=
  match s with
  | Some s => negb (String.eqb s "")
  | None => false
  end.

End Py.

Import Py.

Declare Scope py_scope.
Delimit Scope py_scope with py.
Notation "x <- c1 ;; c2" := (bind c1 (fun x => c2))
  (at level 100, c1 at next level, right associativity) : py_scope.
Notation "c1 ;; c2" := (bind c1 (fun _ => c2))
  (at level 100, right associativity) : py_scope.
Open Scope py_scope.

(** A vector of floats. *)
Definition Vector : Type := list Q.

(** ** config.py *)

Module Config.

Record UploadConfig : Type := {
  batch_size : Z;
  enable_retry : bool;
  max_retries : Z;
  initial_backoff : Q
}.

Record BenchmarkConfig : Type := {
  warmup_enabled : bool;
  limit : Z;
  oversampling_factors : list Q;
  test_queries : list string
}.

End Config.
Export Config.

(** ** uploader.py *)

Module Uploader.
Section WithItem.

(** The payload of a point: an item of the corpus, opaque here. *)
Context {Item : Type}.

Inductive VectorData : Type :=
| NamedVector (vector_name : string) (embedding : Vector)
| PlainVector (embedding : Vector).

Record PointStruct : Type := {
  id : Z;
  vector : VectorData;
  payload : Item
}.

(** What the uploader does to the outside, in order.  [RetryEntered]
    marks an invocation of [_upload_with_retry]. *)
Inductive event : Type :=
| Upsert (collection_name : string) (points : list PointStruct)
| Sleep (seconds : Q)
| RetryEntered (batch_num : Z).

Definition upsert_calls (tr : list event) : list (string * list PointStruct) :=
  omap (fun e => match e with Upsert n p => Some (n, p) | _ => None end) tr.

Definition sleep_calls (tr : list event) : list Q :=
  omap (fun e => match e with Sleep s => Some s | _ => None end) tr.

Definition retry_invocations (tr : list event) : list Z :=
  omap (fun e => match e with RetryEntered b => Some b | _ => None end) tr.

(** The client handle: [upsert_reply k] is what the service answers to
    the [k]-th upsert of the run, [None] for success and [Some e] for the
    exception it raises. *)
Record QdrantClient : Type := {
  upsert_reply : nat -> option exn
}.

Record DataUploader : Type := {
  client : QdrantClient;
  config : UploadConfig
}.

Definition world : Type := list event.

(** [self.client.upsert(collection_name=..., points=...)] *)
Definition client_upsert (c : QdrantClient) (collection_name : string)
    (points : list PointStruct) : M world unit :=
  fun tr =>
    let k := length (upsert_calls tr) in
    let tr' := tr ++ [Upsert collection_name points] in
    match upsert_reply c k with
    | None => (Ok tt, tr')
    | Some e => (Raise e, tr')
    end.

(** [time.sleep(wait_time)] *)
Definition time_sleep (seconds : Q) : M world unit :=
  fun tr => (Ok tt, tr ++ [Sleep seconds]).

Definition enter_retry (batch_num : Z) : M world unit :=
  fun tr => (Ok tt, tr ++ [RetryEntered batch_num]).

Definition _prepare_points (batch_dataset : list Item)
    (batch_embeddings : list Vector) (start_id : Z) (named_vector : bool)
    (vector_name : string) : list PointStruct :=
  imap (fun idx '(item, embedding) =>
          let vector_data :=
            if named_vector then NamedVector vector_name embedding
            else PlainVector embedding in
          {| id := start_id + Z.of_nat idx;
             vector := vector_data;
             payload := item |})
       (zip batch_dataset batch_embeddings).

(** The body of [for attempt in range(max_retries)], over the attempts
    that remain. *)
Fixpoint retry_loop (self : DataUploader) (collection_name : string)
    (points : list PointStruct) (attempts : list Z) : M world Z :=
  match attempts with
  | [] => ret 0
  | attempt :: rest =>
      try_except
        (client_upsert (client self) collection_name points ;;
         ret (len points))
        is_ResponseHandlingException
        (fun e =>
           if attempt <? max_retries (config self) - 1 then
             let wait_time :=
               (initial_backoff (config self) * inject_Z (attempt + 1))%Q in
             time_sleep wait_time ;;
             retry_loop self collection_name points rest
           else raise e)
  end.

Definition _upload_with_retry (self : DataUploader) (collection_name : string)
    (points : list PointStruct) (batch_num : Z) : M world Z :=
  enter_retry batch_num ;;
  let max_retries := max_retries (config self) in
  retry_loop self collection_name points (seqZ 0 max_retries).

(** The body of [for i in range(0, len(dataset), batch_size)], over the
    offsets that remain. *)
Fixpoint upload_loop (self : DataUploader) (collection_name : string)
    (dataset : list Item) (embeddings : list Vector) (named_vector : bool)
    (vector_name : string) (offsets : list Z) (total_uploaded : Z)
    : M world Z :=
  match offsets with
  | [] => ret total_uploaded
  | i :: rest =>
      let batch_size := batch_size (config self) in
      let batch_dataset := slice dataset i (i + batch_size) in
      let batch_embeddings := slice embeddings i (i + batch_size) in
      let points :=
        _prepare_points batch_dataset batch_embeddings i named_vector
                        vector_name in
      uploaded <-
        (if enable_retry (config self) then
           _upload_with_retry self collection_name points (i / batch_size)
         else
           client_upsert (client self) collection_name points ;;
           ret (len points)) ;;
      upload_loop self collection_name dataset embeddings named_vector
                  vector_name rest (total_uploaded + uploaded)
  end.

(** The message of the size-mismatch error. *)
Definition size_mismatch_message (dataset_size embeddings_size : Z) : string :=
  "Dataset size (" +:+ pretty dataset_size
  +:+ ") doesn't match embeddings size (" +:+ pretty embeddings_size +:+ ")".

Definition upload_batch (self : DataUploader) (collection_name : string)
    (dataset : list Item) (embeddings : list Vector) (named_vector : bool)
    (vector_name : string) : M world Z :=
  if negb (len dataset =? len embeddings) then
    raise (ValueError (size_mismatch_message (len dataset) (len embeddings)))
  else
    match range 0 (len dataset) (batch_size (config self)) with
    | None => raise (ValueError "range() arg 3 must not be zero")
    | Some offsets =>
        upload_loop self collection_name dataset embeddings named_vector
                    vector_name offsets 0
    end.

End WithItem.
Arguments PointStruct : clear implicits.
Arguments event : clear implicits.
Arguments world : clear implicits.
End Uploader.

(** ** NumPy reductions used by benchmarking.py *)

Module Np.

Fixpoint insert_sorted (x : Q) (l : list Q) : list Q :=
  match l with
  | [] => [x]
  | y :: l' => if Qle_bool x y then x :: l else y :: insert_sorted x l'
  end.

(** [np.sort], ascending. *)
Definition sort (l : list Q) : list Q := foldr insert_sorted [] l.

Definition sum (l : list Q) : Q := foldr Qplus (0%Q) l.

(** [np.mean]: the sum over the count.  (On an empty sample NumPy answers
    nan; here the value is 0.) *)
Definition mean (l : list Q) : Q := (sum l / inject_Z (len l))%Q.

(** Value of the sorted sample [s] at the fractional rank [vi]: the
    values at the two neighbouring ranks, the upper one clipped to the
    last rank, joined by a straight line. *)
Definition interpolate (s : list Q) (vi : Q) : Q :=
  let n := len s in
  let lo := Qfloor vi in
  let hi := Z.min (lo + 1) (n - 1) in
  let g := (vi - inject_Z lo)%Q in
  let a_lo := nth (Z.to_nat lo) s (0%Q) in
  let a_hi := nth (Z.to_nat hi) s (0%Q) in
  (a_lo + (a_hi - a_lo) * g)%Q.

(** Modelled from the spec: [np.percentile] is NumPy's, not under src/.
    The spec asks for "percentile interpolation consistent with
    linear-interpolation-between-ranks semantics (so p50 of an even-length
    sample is the mean of the two middle values)": the [q]-th percentile
    of [a] is the value of the sorted sample at the fractional rank
    [(len a - 1) * q / 100].  (On an empty sample NumPy answers nan; here
    the value is 0.) *)
Definition percentile (a : list Q) (q : Q) : Q :=
  let s := sort a in
  let vi := (inject_Z (len s - 1) * (q / 100))%Q in
  interpolate s vi.

End Np.

(** ** benchmarking.py *)

Module Benchmark.

Record QuantizationSearchParams : Type := {
  rescore : bool;
  oversampling : Q
}.

Record SearchParams : Type := {
  quantization : QuantizationSearchParams
}.

(** The keyword arguments of one [query_points] call; an absent key is
    [None]. *)
Record QueryParams : Type := {
  collection_name : string;
  query : Vector;
  query_limit : Z;
  using_ : option string;
  search_params : option SearchParams
}.

(** The statistics of one latency run: the dictionary with the keys
    avg, p50, p90, p95, p99, p99.5, p99.9. *)
Record MetricBundle : Type := {
  avg : Q;
  p50 : Q;
  p90 : Q;
  p95 : Q;
  p99 : Q;
  p99_5 : Q;
  p99_9 : Q
}.

Inductive event : Type :=
| QueryPoints (params : QueryParams)
| TimeRead.

Definition query_calls (tr : list event) : list QueryParams :=
  omap (fun e => match e with QueryPoints p => Some p | _ => None end) tr.

Definition time_reads (tr : list event) : nat :=
  length (omap (fun e => match e with TimeRead => Some tt | _ => None end) tr).

(** The client handle: the answer to the [k]-th query of the run is the
    list of the identifiers of the points found, or an exception. *)
Record QdrantClient : Type := {
  query_reply : nat -> QueryParams -> exn + list Z
}.

Record EmbeddingService : Type := {
  encode_text : string -> Vector
}.

Record PerformanceBenchmark : Type := {
  client : QdrantClient;
  embedding_service : EmbeddingService;
  config : BenchmarkConfig
}.

Definition world : Type := list event.

Definition _calculate_metrics (latencies : list Q) : MetricBundle :=
  {| avg := Np.mean latencies;
     p50 := Np.percentile latencies 50;
     p90 := Np.percentile latencies 90;
     p95 := Np.percentile latencies 95;
     p99 := Np.percentile latencies 99;
     p99_5 := Np.percentile latencies 99.5;
     p99_9 := Np.percentile latencies 99.9 |}.

(** The overlap ratio of lines 286-287 of [measure_accuracy_retention]. *)
Definition accuracy_score (baseline_ids quantized_ids : gset Z) : Q :=
  let overlap := size (baseline_ids ∩ quantized_ids) in
  if bool_decide (baseline_ids = ∅) then 0%Q
  else (inject_Z (Z.of_nat overlap) / inject_Z (Z.of_nat (size baseline_ids)))%Q.

Section WithClock.

(** [clock k] is the [k]-th reading of [time.time()] in the run. *)
Variable clock : nat -> Q.

(** [time.time()] *)
Definition time_time : M world Q :=
  fun tr => (Ok (clock (time_reads tr)), tr ++ [TimeRead]).

(** [self.client.query_points], called with the keyword arguments
    [query_params] *)
Definition client_query_points (c : QdrantClient) (params : QueryParams)
    : M world (list Z) :=
  fun tr =>
    let k := length (query_calls tr) in
    let tr' := tr ++ [QueryPoints params] in
    match query_reply c k params with
    | inr points => (Ok points, tr')
    | inl e => (Raise e, tr')
    end.

Definition warmup (self : PerformanceBenchmark) (collection_name : string)
    (using_ : option string) : M world unit :=
  if negb (warmup_enabled (config self)) then ret tt
  else
    let warmup_vector :=
      encode_text (embedding_service self) "warmup query" in
    let query_params :=
      {| collection_name := collection_name;
         query := warmup_vector;
         query_limit := limit (config self);
         using_ := if truthy_str using_ then using_ else None;
         search_params := None |} in
    client_query_points (client self) query_params ;;
    ret tt.

(** The body of [for query in test_queries] of
    [measure_search_latency]. *)
Fixpoint measure_loop (self : PerformanceBenchmark)
    (collection_name : string) (using_ : option string)
    (search_params : option SearchParams) (queries : list string)
    (latencies : list Q) : M world (list Q) :=
  match queries with
  | [] => ret latencies
  | query :: rest =>
      let query_vector := encode_text (embedding_service self) query in
      start_time <- time_time ;;
      let query_params :=
        {| collection_name := collection_name;
           query := query_vector;
           query_limit := limit (config self);
           using_ := if truthy_str using_ then using_ else None;
           search_params := search_params |} in
      client_query_points (client self) query_params ;;
      end_time <- time_time ;;
      let latency := ((end_time - start_time) * 1000)%Q in
      measure_loop self collection_name using_ search_params rest
                   (latencies ++ [latency])
  end.

Definition measure_search_latency (self : PerformanceBenchmark)
    (collection_name : string) (test_queries : option (list string))
    (using_ : option string) (search_params : option SearchParams)
    : M world MetricBundle :=
  let test_queries :=
    match test_queries with
    | None => Config.test_queries (config self)
    | Some qs => qs
    end in
  warmup self collection_name using_ ;;
  latencies <-
    measure_loop self collection_name using_ search_params test_queries [] ;;
  let metrics := _calculate_metrics latencies in
  ret metrics.

(** The search parameters of the rescoring pass of
    [benchmark_quantization] and of the two sweeps. *)
Definition rescoring_params (factor : Q) : SearchParams :=
  {| quantization := {| rescore := true; oversampling := factor |} |}.




(** The body of [for query in test_queries] of
    [measure_accuracy_retention], for one oversampling factor. *)
Fixpoint accuracy_loop (self : PerformanceBenchmark)
    (original_collection quantized_collection : string)
    (using_original : string) (factor : Q) (queries : list string)
    (accuracy_scores : list Q) : M world (list Q) :=
  match queries with
  | [] => ret accuracy_scores
  | query :: rest =>
      let query_vector := encode_text (embedding_service self) query in
      baseline_results <-
        client_query_points (client self)
          {| collection_name := original_collection;
             query := query_vector;
             query_limit := limit (config self);
             using_ := Some using_original;
             search_params := None |} ;;
      let baseline_ids : gset Z := list_to_set baseline_results in
      quantized_results <-
        client_query_points (client self)
          {| collection_name := quantized_collection;
             query := query_vector;
             query_limit := limit (config self);
             using_ := None;
             search_params := Some (rescoring_params factor) |} ;;
      let quantized_ids : gset Z := list_to_set quantized_results in
      let accuracy := accuracy_score baseline_ids quantized_ids in
      accuracy_loop self original_collection quantized_collection
                    using_original factor rest
                    (accuracy_scores ++ [accuracy])
  end.

(** [results[key] = value] on a dictionary kept in insertion order. *)
Fixpoint dict_set (results : list (Q * Q)) (key value : Q) : list (Q * Q) :=
  match results with
  | [] => [(key, value)]
  | (k, v) :: rest =>
      if Qeq_bool k key then (k, value) :: rest
      else (k, v) :: dict_set rest key value
  end.

(** The body of [for factor in factors] of [measure_accuracy_retention];
    the result maps each factor to its "avg_accuracy". *)
Fixpoint retention_loop (self : PerformanceBenchmark)
    (original_collection quantized_collection : string)
    (using_original : string) (queries : list string) (factors : list Q)
    (results : list (Q * Q)) : M world (list (Q * Q)) :=
  match factors with
  | [] => ret results
  | factor :: rest =>
      accuracy_scores <-
        accuracy_loop self original_collection quantized_collection
                      using_original factor queries [] ;;
      retention_loop self original_collection quantized_collection
                     using_original queries rest
                     (dict_set results factor (Np.mean accuracy_scores))
  end.

Definition measure_accuracy_retention (self : PerformanceBenchmark)
    (original_collection quantized_collection : string)
    (test_queries : option (list string)) (factors : option (list Q))
    (using_original : string) : M world (list (Q * Q)) :=
  let test_queries :=
    match test_queries with
    | None => Config.test_queries (config self)
    | Some qs => qs
    end in
  let factors :=
    match factors with
    | None => oversampling_factors (config self)
    | Some fs => fs
    end in
  retention_loop self original_collection quantized_collection
                 using_original test_queries factors [].

End WithClock.

End Benchmark.

(** ** qdrant_manager.py *)

Module Manager.

Inductive Distance : Type := COSINE | EUCLID | DOT | MANHATTAN.

Record CollectionConfig : Type := {
  distance : Distance;
  on_disk : bool;
  timeout : Z
}.

Record EmbeddingConfig : Type := {
  model_name : string;
  vector_size : Z
}.

(** [models.VectorParams]; [params_on_disk] is [None] when the keyword is
    not passed. *)
Record VectorParams : Type := {
  params_size : Z;
  params_distance : Distance;
  params_on_disk : option bool
}.

Inductive VectorsConfig : Type :=
| SingleVector (params : VectorParams)
| NamedVectors (fields : list (string * VectorParams)).

Record SparseVectorParams : Type := {
  index_on_disk : bool
}.

(** The quantization schemes of [config.py]. *)
Inductive QuantizationConfig : Type :=
| ScalarQuantization
| BinaryQuantization
| BinaryQuantizationTwoBits.

(** The keyword arguments of [create_collection], the name apart. *)
Record CreateParams : Type := {
  vectors_config : VectorsConfig;
  sparse_vectors_config : list (string * SparseVectorParams);
  quantization_config : option QuantizationConfig
}.

Inductive event : Type :=
| CollectionExists (collection_name : string)
| DeleteCollection (collection_name : string)
| CreateCollection (collection_name : string) (params : CreateParams).

(** The remote calls made so far, and the collections the service holds. *)
Record world : Type := {
  trace : list event;
  collections : gmap string CreateParams
}.

Record QdrantCollectionManager : Type := {
  collection_config : CollectionConfig;
  embedding_config : EmbeddingConfig
}.

Definition log (e : event) (w : world) : world :=
  {| trace := trace w ++ [e]; collections := collections w |}.

(** [self.client.collection_exists(name)] *)
Definition client_collection_exists (collection_name : string)
    : M world bool :=
  fun w =>
    (Ok (bool_decide (is_Some (collections w !! collection_name))),
     log (CollectionExists collection_name) w).

(** [self.client.delete_collection(name)] *)
Definition client_delete_collection (collection_name : string)
    : M world unit :=
  fun w =>
    (Ok tt,
     {| trace := trace w ++ [DeleteCollection collection_name];
        collections := delete collection_name (collections w) |}).

(** [self.client.create_collection(...)]: the service refuses a name it
    already holds. *)
Definition client_create_collection (collection_name : string)
    (params : CreateParams) : M world unit :=
  fun w =>
    match collections w !! collection_name with
    | Some _ =>
        (Raise (OtherException "collection already exists"),
         log (CreateCollection collection_name params) w)
    | None =>
        (Ok tt,
         {| trace := trace w ++ [CreateCollection collection_name params];
            collections := <[collection_name := params]> (collections w) |})
    end.

Definition collection_exists (self : QdrantCollectionManager)
    (collection_name : string) : M world bool :=
  client_collection_exists collection_name.

Definition delete_collection (self : QdrantCollectionManager)
    (collection_name : string) : M world unit :=
  exists_ <- collection_exists self collection_name ;;
  if (exists_ : bool) then client_delete_collection collection_name
  else ret tt.

Definition create_hybrid_collection (self : QdrantCollectionManager)
    (collection_name : string) : M world unit :=
  client_create_collection collection_name
    {| vectors_config :=
         NamedVectors
           [("dense",
             {| params_size := vector_size (embedding_config self);
                params_distance := distance (collection_config self);
                params_on_disk := None |})];
       sparse_vectors_config := [("sparse", {| index_on_disk := false |})];
       quantization_config := None |}.

Definition create_standard_collection (self : QdrantCollectionManager)
    (collection_name : string) : M world unit :=
  client_create_collection collection_name
    {| vectors_config :=
         SingleVector
           {| params_size := vector_size (embedding_config self);
              params_distance := distance (collection_config self);
              params_on_disk := Some (on_disk (collection_config self)) |};
       sparse_vectors_config := [];
       quantization_config := None |}.

Definition create_quantized_collection (self : QdrantCollectionManager)
    (collection_name : string) (quantization_config : QuantizationConfig)
    : M world unit :=
  client_create_collection collection_name
    {| vectors_config :=
         SingleVector
           {| params_size := vector_size (embedding_config self);
              params_distance := distance (collection_config self);
              params_on_disk := Some true |};
       sparse_vectors_config := [];
       quantization_config := Some quantization_config |}.

Definition recreate_collection (self : QdrantCollectionManager)
    (collection_name : string) (collection_type : string)
    (quantization_config : option QuantizationConfig) : M world unit :=
  delete_collection self collection_name ;;
  if String.eqb collection_type "hybrid" then
    create_hybrid_collection self collection_name
  else if String.eqb collection_type "quantized" then
    match quantization_config with
    | None =>
        raise (ValueError
                 "quantization_config required for quantized collection")
    | Some quantization_config =>
        create_quantized_collection self collection_name quantization_config
    end
  else
    create_standard_collection self collection_name.

End Manager.

(** ** benchmarking.py: the oversampling sweep *)

Module Sweep.

Import Benchmark.



Section WithClock.

Variable clock : nat -> Q.




End WithClock.

End Sweep.

(** ** embeddings.py *)

Module Embeddings.

Import Benchmark.

(** An item of the corpus as [encode_dataset] reads it: its fields by
    name, each with the text the item holds for it (the corpus generator
    gives strings for the title and the description). *)
Definition Item : Type := gmap string string.

(** The body of [for i in range(0, len(texts), batch_size)] of
    [encode_batch], over the offsets that remain. *)
Fixpoint encode_loop (self : EmbeddingService) (texts : list string)
    (batch_size : Z) (offsets : list Z) (embeddings : list Vector)
    : list Vector :=
  match offsets with
  | [] => embeddings
  | i :: rest =>
      let batch := slice texts i (i + batch_size) in
      let batch_embeddings := encode_text self <$> batch in
      encode_loop self texts batch_size rest (embeddings ++ batch_embeddings)
  end.

Definition encode_batch (self : EmbeddingService) (texts : list string)
    : list Vector :=
  let batch_size := 1000 in
  match range 0 (len texts) batch_size with
  | Some offsets => encode_loop self texts batch_size offsets []
  | None => []
  end.

(** [item.get(key, "")] *)
Definition item_get (item : Item) (key : string) : string :=
  default "" (item !! key).

Definition encode_dataset (self : EmbeddingService) (dataset : list Item)
    (text_field title_field : string) (combine_fields : bool)
    : list Vector :=
  let texts :=
    if combine_fields then
      (fun item =>
         item_get item title_field +:+ " " +:+ item_get item text_field)
      <$> dataset
    else (fun item => item_get item text_field) <$> dataset in
  encode_batch self texts.

End Embeddings.

(** ** qdrant_manager.py: collection information *)

Module ManagerInfo.

(** What the service reports about a collection. *)
Record CollectionInfo : Type := {
  vectors_count : option Z;
  points_count : option Z;
  status : string
}.

(** The dictionary [get_collection_info] returns. *)
Record InfoDict : Type := {
  info_name : string;
  info_vectors_count : option Z;
  info_points_count : option Z;
  info_status : string
}.

Inductive event : Type :=
| CollectionExists (collection_name : string)
| GetCollection (collection_name : string).

(** The remote calls made so far, and what the service holds. *)
Record world : Type := {
  trace : list event;
  held : gmap string CollectionInfo
}.

(** [self.client.collection_exists(name)] *)
Definition client_collection_exists (collection_name : string)
    : M world bool :=
  fun w =>
    (Ok (bool_decide (is_Some (held w !! collection_name))),
     {| trace := trace w ++ [CollectionExists collection_name];
        held := held w |}).

(** [self.client.get_collection(name)]: the service refuses a name it
    does not hold. *)
Definition client_get_collection (collection_name : string)
    : M world CollectionInfo :=
  fun w =>
    let w' := {| trace := trace w ++ [GetCollection collection_name];
                 held := held w |} in
    match held w !! collection_name with
    | Some info => (Ok info, w')
    | None => (Raise (OtherException "collection not found"), w')
    end.

Definition get_collection_info (collection_name : string)
    : M world InfoDict :=
  exists_ <- client_collection_exists collection_name ;;
  if negb exists_ then
    raise (ValueError
             ("Collection '" +:+ collection_name +:+ "' does not exist"))
  else
    info <- client_get_collection collection_name ;;
    ret {| info_name := collection_name;
           info_vectors_count := vectors_count info;
           info_points_count := points_count info;
           info_status := status info |}.

End ManagerInfo.

(** ** Vocabulary of the statements about the uploader *)

Module UploadSpec.
Section WithItem.

Context {Item : Type}.

Import Uploader.

(** The point stored for one entry of the zipped corpus. *)
Definition point_of (named_vector : bool) (vector_name : string)
    (ident : Z) (entry : Item * Vector) : PointStruct Item :=
  {| id := ident;
     vector := if named_vector then NamedVector vector_name entry.2
               else PlainVector entry.2;
     payload := entry.1 |}.

(** Number of batches of [B] entries that cover [n] entries. *)
Definition batch_count (n B : Z) : nat := Z.to_nat ((n + B - 1) / B).

(** Batch [k] of the zipped corpus: its [k]-th run of [B] consecutive
    entries (fewer at the end). *)
Definition batch_entries (B : Z) (dataset : list Item)
    (embeddings : list Vector) (k : nat) : list (Item * Vector) :=
  take (Z.to_nat B) (drop (k * Z.to_nat B) (zip dataset embeddings)).

(** The points of batch [k], identified by [k * B + in-batch index]. *)
Definition batch_points (named_vector : bool) (vector_name : string)
    (B : Z) (dataset : list Item) (embeddings : list Vector) (k : nat)
    : list (PointStruct Item) :=
  imap (fun j => point_of named_vector vector_name
                          (Z.of_nat k * B + Z.of_nat j))
       (batch_entries B dataset embeddings k).

(** [j] failed attempts on one batch, numbered from [attempt], each
    followed by its wait. *)
Fixpoint failed_attempts (collection_name : string)
    (points : list (PointStruct Item)) (backoff : Q) (attempt : Z)
    (j : nat) : list (event Item) :=
  match j with
  | O => []
  | S j' =>
      Upsert collection_name points
      :: Sleep (backoff * inject_Z (attempt + 1))%Q
      :: failed_attempts collection_name points backoff (attempt + 1) j'
  end.

(** The upsert answers [k0], [k0 + 1], ..., [k0 + j - 1] are transient
    failures. *)
Definition transient_from (c : QdrantClient) (k0 j : nat) : Prop :=
  forall i, (i < j)%nat ->
    exists msg, upsert_reply c (k0 + i) = Some (ResponseHandlingException msg).

(** The upsert answers [k0], ..., [k0 + j - 1] are successes. *)
Definition accepted_from (c : QdrantClient) (k0 j : nat) : Prop :=
  forall i, (i < j)%nat -> upsert_reply c (k0 + i) = None.

End WithItem.
End UploadSpec.

(** ** Scenarios the statements are tried on *)

Module Scenario.

Import Uploader.

(** A corpus of [n] items, item [i] being the number [i], and its
    vectors. *)
Definition items (n : nat) : list nat := seq 0 n.

Definition vectors (n : nat) : list Vector :=
  (fun i => [inject_Z (Z.of_nat i)]) <$> seq 0 n.

(** A service that accepts every upsert. *)
Definition accepting : QdrantClient := {| upsert_reply := fun _ => None |}.

(** A service that times out on its first [j] upserts. *)
Definition failing_first (j : nat) : QdrantClient :=
  {| upsert_reply := fun k =>
       if (k <? j)%nat then Some (ResponseHandlingException "Timeout")
       else None |}.

(** A service that times out on every upsert. *)
Definition always_failing : QdrantClient :=
  {| upsert_reply := fun _ => Some (ResponseHandlingException "Timeout") |}.

Definition uploader (c : QdrantClient) (B : Z) (retry : bool)
    (retries : Z) (backoff : Q) : DataUploader :=
  {| client := c;
     config := {| batch_size := B; enable_retry := retry;
                  max_retries := retries; initial_backoff := backoff |} |}.

(** The identifiers carried by each upsert of a trace. *)
Definition uploaded_ids {Item} (tr : world Item) : list (list Z) :=
  (fun call : string * list (PointStruct Item) => id <$> call.2)
    <$> upsert_calls tr.

End Scenario.

(** ** Vocabulary of the statements about the benchmark *)

Module BenchSpec.

Import Benchmark.

(** The service answers every query. *)
Definition answering (c : QdrantClient) : Prop :=
  forall k params, exists points, query_reply c k params = inr points.

(** The test queries of a run: the ones passed, else the configured ones. *)
Definition queries_of (self : PerformanceBenchmark)
    (test_queries : option (list string)) : list string :=
  default (Config.test_queries (config self)) test_queries.

(** The query sent for the text [text] in a latency run. *)
Definition latency_query (self : PerformanceBenchmark)
    (collection_name : string) (using_ : option string)
    (search_params : option SearchParams) (text : string) : QueryParams :=
  {| collection_name := collection_name;
     query := encode_text (embedding_service self) text;
     query_limit := limit (config self);
     using_ := if truthy_str using_ then using_ else None;
     search_params := search_params |}.

(** The warmup step: one query when warmup is enabled, nothing otherwise,
    and no reading of the clock. *)
Definition warmup_events (self : PerformanceBenchmark)
    (collection_name : string) (using_ : option string) : list event :=
  if warmup_enabled (config self)
  then [QueryPoints (latency_query self collection_name using_ None
                                   "warmup query")]
  else [].

(** The measuring step: each test query between two readings of the
    clock, in the order of the list. *)
Definition measuring_events (self : PerformanceBenchmark)
    (collection_name : string) (using_ : option string)
    (search_params : option SearchParams) (queries : list string)
    : list event :=
  flat_map (fun text =>
              [TimeRead;
               QueryPoints (latency_query self collection_name using_
                                          search_params text);
               TimeRead])
           queries.

(** The [n] samples of a measuring step that starts at the clock reading
    number [first]: sample [i] lies between the readings [first + 2 i] and
    [first + 2 i + 1], in milliseconds. *)
Definition measured_latencies (clock : nat -> Q) (first n : nat) : list Q :=
  (fun i => ((clock (first + 2 * i + 1)%nat - clock (first + 2 * i)%nat)
             * 1000)%Q)
  <$> seq 0 n.

(** A clock that advances by one second at each reading, a service that
    finds nothing, an embedding that keeps the length of the text. *)
Definition ticking_clock (k : nat) : Q := inject_Z (Z.of_nat k).

Definition silent_client : QdrantClient :=
  {| query_reply := fun _ _ => inr [] |}.

Definition length_embedding : EmbeddingService :=
  {| encode_text := fun text => [inject_Z (Z.of_nat (String.length text))] |}.

Definition bench (warm : bool) (queries : list string)
    : PerformanceBenchmark :=
  {| client := silent_client;
     embedding_service := length_embedding;
     config := {| warmup_enabled := warm; limit := 10;
                  oversampling_factors := [2; 3; 5; 8; 10]%Q;
                  test_queries := queries |} |}.

End BenchSpec.

(** ** Vocabulary of the statements about the collection manager *)

Module ManagerSpec.

Import Manager.

(** The manager with the default configuration of [config.py]. *)
Definition default_manager : QdrantCollectionManager :=
  {| collection_config :=
       {| distance := COSINE; on_disk := true; timeout := 60 |};
     embedding_config :=
       {| model_name := "all-MiniLM-L6-v2"; vector_size := 384 |} |}.

(** What [recreate_collection] asks the service to create, by kind;
    [None] when the kind is "quantized" and no quantization is given. *)
Definition params_by_kind (self : QdrantCollectionManager)
    (collection_type : string)
    (quantization_config : option QuantizationConfig)
    : option CreateParams :=
  let dense on_disk :=
    {| params_size := vector_size (embedding_config self);
       params_distance := distance (collection_config self);
       params_on_disk := on_disk |} in
  if String.eqb collection_type "hybrid" then
    Some {| vectors_config := NamedVectors [("dense", dense None)];
            sparse_vectors_config :=
              [("sparse", {| index_on_disk := false |})];
            quantization_config := None |}
  else if String.eqb collection_type "quantized" then
    (fun scheme =>
       {| vectors_config := SingleVector (dense (Some true));
          sparse_vectors_config := [];
          quantization_config := Some scheme |})
    <$> quantization_config
  else
    Some {| vectors_config :=
              SingleVector (dense (Some (on_disk (collection_config self))));
            sparse_vectors_config := [];
            quantization_config := None |}.

(** The calls of the delete-if-exists step on the world [w]. *)
Definition delete_if_exists_events (w : world) (collection_name : string)
    : list event :=
  CollectionExists collection_name
  :: (if bool_decide (is_Some (collections w !! collection_name))
      then [DeleteCollection collection_name] else []).

(** A service that holds one standard collection, "products". *)
Definition one_collection : world :=
  {| trace := [];
     collections :=
       {[ "products" :=
            {| vectors_config :=
                 SingleVector {| params_size := 384;
                                 params_distance := COSINE;
                                 params_on_disk := Some true |};
               sparse_vectors_config := [];
               quantization_config := None |} ]} |}.

End ManagerSpec.

(** ** Further scenarios *)

Module ScenarioEdges.

Import Uploader.

(** A service that answers the upsert number [t] with the exception [e]
    and accepts every other one. *)
Definition failing_at (t : nat) (e : exn) : QdrantClient :=
  {| upsert_reply := fun k => if (k =? t)%nat then Some e else None |}.

End ScenarioEdges.

(** ** Vocabulary of the further statements about the benchmark *)

Module BenchEdges.

Import Benchmark.

(** The service answers its first [n] queries. *)
Definition answering_first (c : QdrantClient) (n : nat) : Prop :=
  forall k params, (k < n)%nat ->
    exists points, query_reply c k params = inr points.

(** The two queries of the accuracy sweep for one text: the baseline one
    and the quantized one. *)
Definition baseline_query (self : PerformanceBenchmark)
    (original_collection using_original text : string) : QueryParams :=
  {| collection_name := original_collection;
     query := encode_text (embedding_service self) text;
     query_limit := limit (config self);
     using_ := Some using_original;
     search_params := None |}.

Definition quantized_query (self : PerformanceBenchmark)
    (quantized_collection : string) (factor : Q) (text : string)
    : QueryParams :=
  {| collection_name := quantized_collection;
     query := encode_text (embedding_service self) text;
     query_limit := limit (config self);
     using_ := None;
     search_params := Some (rescoring_params factor) |}.

Definition accuracy_events (self : PerformanceBenchmark)
    (original_collection quantized_collection using_original : string)
    (factor : Q) (queries : list string) : list event :=
  flat_map (fun text =>
              [QueryPoints (baseline_query self original_collection
                                           using_original text);
               QueryPoints (quantized_query self quantized_collection
                                            factor text)])
           queries.

(** A number between 0 and 1. *)
Definition unit_interval (x : Q) : Prop := (0 <= x)%Q /\ (x <= 1)%Q.

(** A service that finds nothing but raises [e] on the query number [t]. *)
Definition failing_query (t : nat) (e : exn) : QdrantClient :=
  {| query_reply := fun k _ => if (k =? t)%nat then inl e else inr [] |}.

Definition bench_on (c : QdrantClient) (warm : bool)
    : PerformanceBenchmark :=
  {| client := c;
     embedding_service := BenchSpec.length_embedding;
     config := {| warmup_enabled := warm; limit := 10;
                  oversampling_factors := [2; 3; 5; 8; 10]%Q;
                  test_queries := [] |} |}.

End BenchEdges.

(** ** A small corpus with text fields *)

Module CorpusScenario.

(** Two items, the second without a description. *)
Definition two_items : list Embeddings.Item :=
  [{[ "title" := "Rust"; "description" := "systems" ]};
   {[ "title" := "Go" ]}].

End CorpusScenario.

(** * Properties *)

(** ** Ranges and slices *)

Section PyFacts.

Lemma range_len_ceil (n step : Z) :
  0 <= n -> 0 < step -> range_len 0 n step = (n + step - 1) / step.
Proof.
  intros Hn Hstep. unfold range_len.
  destruct (Z.ltb_spec 0 step) as [_|?]; [|lia].
  destruct (Z.ltb_spec 0 n) as [Hpos|Hle].
  - replace (n + step - 1) with (n - 0 - 1 + 1 * step) by lia.
    rewrite Z.div_add by lia. reflexivity.
  - assert (n = 0) as -> by lia.
    symmetry. apply Z.div_small. lia.
Qed.

Lemma range_len_nonneg (start stop step : Z) :
  0 <= range_len start stop step.
Proof.
  unfold range_len.
  destruct (Z.ltb_spec 0 step), (Z.ltb_spec start stop),
    (Z.ltb_spec stop start); try lia.
  - assert (0 <= (stop - start - 1) / step); [|lia].
    apply Z_div_nonneg_nonneg; lia.
  - assert (0 <= (start - stop - 1) / - step); [|lia].
    apply Z_div_nonneg_nonneg; lia.
Qed.

Lemma range_batches (n step : Z) :
  0 <= n -> 0 < step ->
  range 0 n step =
  Some ((fun k : nat => Z.of_nat k * step) <$>
        seq 0 (Z.to_nat ((n + step - 1) / step))).
Proof.
  intros Hn Hstep. unfold range.
  destruct (Z.eqb_spec step 0) as [?|_]; [lia|].
  rewrite range_len_ceil by lia. f_equal.
  unfold seqZ. rewrite <- list_fmap_compose.
  apply list_fmap_ext. intros _ k _. simpl. lia.
Qed.

Lemma slice_take_drop {A} (l : list A) (lo size : Z) :
  0 <= lo -> 0 < size ->
  slice l lo (lo + size) = take (Z.to_nat size) (drop (Z.to_nat lo) l).
Proof.
  intros Hlo Hsize. unfold slice, clamp_index, len.
  destruct (Z.ltb_spec lo 0); [lia|].
  destruct (Z.ltb_spec (lo + size) 0); [lia|].
  destruct (Z_le_gt_dec lo (Z.of_nat (length l))) as [Hin|Hout].
  - rewrite (Z.min_l lo) by lia.
    destruct (Z_le_gt_dec (lo + size) (Z.of_nat (length l))).
    + rewrite Z.min_l by lia. f_equal. lia.
    + rewrite Z.min_r by lia.
      rewrite !take_ge by (rewrite length_drop; lia). done.
  - rewrite !drop_ge by lia. by rewrite !take_nil.
Qed.

(** Cutting a list into [count] consecutive pieces of [size] elements
    loses nothing when [count * size] reaches its length. *)
Lemma chunks_concat {A} (size count : nat) (l : list A) :
  (length l <= count * size)%nat ->
  concat ((fun k => take size (drop (k * size) l)) <$> seq 0 count) = l.
Proof.
  revert l. induction count as [|count IH]; intros l Hlen.
  - simpl in *. destruct l; [done | simpl in Hlen; lia].
  - cbn [seq fmap list_fmap concat]. rewrite <- fmap_S_seq.
    rewrite <- list_fmap_compose.
    rewrite (list_fmap_ext _ (fun k => take size (drop (k * size) (drop size l)))).
    + rewrite IH; [apply take_drop|].
      rewrite length_drop. lia.
    + intros _ k _. simpl. by rewrite drop_drop.
Qed.

End PyFacts.

(** ** The uploader *)

Section UploaderFacts.

Context {Item : Type}.

Import Uploader UploadSpec.

Implicit Types (self : DataUploader) (tr : world Item)
  (points : list (PointStruct Item)) (dataset : list Item)
  (embeddings : list Vector).

Lemma upsert_calls_app tr1 tr2 :
  upsert_calls (tr1 ++ tr2) = upsert_calls tr1 ++ upsert_calls tr2.
Proof. apply omap_app. Qed.

Lemma sleep_calls_app tr1 tr2 :
  sleep_calls (tr1 ++ tr2) = sleep_calls tr1 ++ sleep_calls tr2.
Proof. apply omap_app. Qed.

Lemma retry_invocations_app tr1 tr2 :
  retry_invocations (tr1 ++ tr2)
  = retry_invocations tr1 ++ retry_invocations tr2.
Proof. apply omap_app. Qed.

Lemma prepare_points_batch dataset embeddings named_vector vector_name
    (B : Z) (k : nat) :
  0 < B ->
  _prepare_points (slice dataset (Z.of_nat k * B) (Z.of_nat k * B + B))
                  (slice embeddings (Z.of_nat k * B) (Z.of_nat k * B + B))
                  (Z.of_nat k * B) named_vector vector_name
  = batch_points named_vector vector_name B dataset embeddings k.
Proof.
  intros HB. unfold _prepare_points, batch_points, batch_entries.
  rewrite !slice_take_drop by lia.
  replace (Z.to_nat (Z.of_nat k * B)) with (k * Z.to_nat B)%nat by lia.
  rewrite <- zip_with_take, <- zip_with_drop.
  apply imap_ext. intros j [item embedding] _. reflexivity.
Qed.

Lemma failed_attempts_upserts collection_name points backoff attempt j :
  upsert_calls (failed_attempts collection_name points backoff attempt j)
  = replicate j (collection_name, points).
Proof.
  unfold upsert_calls.
  revert attempt. induction j as [|j IH]; intros attempt; [done|].
  cbn. by rewrite IH.
Qed.

Lemma failed_attempts_sleeps collection_name points backoff attempt j :
  sleep_calls (failed_attempts collection_name points backoff attempt j)
  = (fun n => (backoff * inject_Z n)%Q) <$> seqZ (attempt + 1) (Z.of_nat j).
Proof.
  unfold sleep_calls.
  revert attempt. induction j as [|j IH]; intros attempt; [done|].
  cbn [failed_attempts]. rewrite seqZ_cons by lia. cbn.
  rewrite IH. do 3 f_equal; lia.
Qed.

(** A batch whose first [j] attempts fail with a transient error and
    whose next attempt is accepted, [j] below the retry budget. *)
Lemma retry_loop_recovers self collection_name points rest (j : nat)
    (attempt : Z) tr :
  attempt + Z.of_nat j < max_retries (config self) ->
  transient_from (client self) (length (upsert_calls tr)) j ->
  upsert_reply (client self) (length (upsert_calls tr) + j) = None ->
  retry_loop self collection_name points
             (seqZ attempt (Z.of_nat (S j)) ++ rest) tr
  = (Ok (len points),
     tr ++ failed_attempts collection_name points
                           (initial_backoff (config self)) attempt j
        ++ [Upsert collection_name points]).
Proof.
  revert attempt tr. induction j as [|j IH]; intros attempt tr Hlt Hfail Hok.
  - rewrite seqZ_cons by lia. cbn [app retry_loop failed_attempts].
    unfold try_except, bind, client_upsert, ret.
    rewrite Nat.add_0_r in Hok. by rewrite Hok.
  - rewrite seqZ_cons by lia. cbn [app retry_loop].
    destruct (Hfail 0%nat ltac:(lia)) as [msg Hmsg].
    rewrite Nat.add_0_r in Hmsg.
    unfold try_except at 1. unfold bind at 1. unfold client_upsert at 1.
    rewrite Hmsg. cbn [is_ResponseHandlingException].
    destruct (Z.ltb_spec attempt (max_retries (config self) - 1)); [|lia].
    unfold bind at 1. unfold time_sleep at 1.
    replace (Z.pred (Z.of_nat (S (S j)))) with (Z.of_nat (S j)) by lia.
    rewrite IH.
    + cbn [failed_attempts]. rewrite <- !app_assoc.
      replace (Z.succ attempt) with (attempt + 1) by lia. reflexivity.
    + lia.
    + intros i Hi. destruct (Hfail (S i) ltac:(lia)) as [m Hm].
      exists m. rewrite <- Hm. f_equal.
      rewrite !upsert_calls_app, !length_app. cbn. lia.
    + rewrite <- Hok. f_equal.
      rewrite !upsert_calls_app, !length_app. cbn. lia.
Qed.

Lemma upload_with_retry_recovers self collection_name points batch_num
    (j : nat) tr :
  Z.of_nat j < max_retries (config self) ->
  transient_from (client self) (length (upsert_calls tr)) j ->
  upsert_reply (client self) (length (upsert_calls tr) + j) = None ->
  _upload_with_retry self collection_name points batch_num tr
  = (Ok (len points),
     tr ++ RetryEntered batch_num
        :: failed_attempts collection_name points
                           (initial_backoff (config self)) 0 j
        ++ [Upsert collection_name points]).
Proof.
  intros Hlt Hfail Hok. unfold _upload_with_retry.
  unfold bind at 1. unfold enter_retry at 1.
  replace (max_retries (config self))
    with (Z.of_nat (S j) + (max_retries (config self) - Z.of_nat (S j)))
    by lia.
  rewrite seqZ_app by lia.
  rewrite retry_loop_recovers.
  - by rewrite <- app_assoc.
  - lia.
  - intros i Hi. destruct (Hfail i Hi) as [m Hm]. exists m.
    rewrite <- Hm. f_equal. rewrite upsert_calls_app, length_app. cbn. lia.
  - rewrite <- Hok. f_equal. rewrite upsert_calls_app, length_app. cbn. lia.
Qed.

(** A transient failure on an attempt that is not the last of the budget:
    wait, and go on with the attempts that remain. *)
Lemma retry_loop_step_wait self collection_name points attempt rest msg tr :
  attempt < max_retries (config self) - 1 ->
  upsert_reply (client self) (length (upsert_calls tr))
  = Some (ResponseHandlingException msg) ->
  retry_loop self collection_name points (attempt :: rest) tr
  = retry_loop self collection_name points rest
      (tr ++ [Upsert collection_name points;
              Sleep (initial_backoff (config self)
                     * inject_Z (attempt + 1))%Q]).
Proof.
  intros Hlt Hmsg. cbn [retry_loop].
  unfold try_except at 1. unfold bind at 1. unfold client_upsert at 1.
  rewrite Hmsg. cbn [is_ResponseHandlingException].
  destruct (Z.ltb_spec attempt (max_retries (config self) - 1)); [|lia].
  unfold bind at 1. unfold time_sleep at 1.
  by rewrite <- app_assoc.
Qed.

(** A transient failure on the last attempt of the budget is re-raised
    as it is. *)
Lemma retry_loop_step_raise self collection_name points attempt rest msg tr :
  max_retries (config self) - 1 <= attempt ->
  upsert_reply (client self) (length (upsert_calls tr))
  = Some (ResponseHandlingException msg) ->
  retry_loop self collection_name points (attempt :: rest) tr
  = (Raise (ResponseHandlingException msg),
     tr ++ [Upsert collection_name points]).
Proof.
  intros Hge Hmsg. cbn [retry_loop].
  unfold try_except at 1. unfold bind at 1. unfold client_upsert at 1.
  rewrite Hmsg. cbn [is_ResponseHandlingException].
  destruct (Z.ltb_spec attempt (max_retries (config self) - 1)); [lia|].
  reflexivity.
Qed.

(** One turn of the upload loop under retry: batch [k] fails [j] times,
    then is accepted. *)
Lemma upload_loop_step_retry self collection_name dataset embeddings
    named_vector vector_name (k j : nat) rest total tr :
  let B := batch_size (config self) in
  let points :=
    batch_points named_vector vector_name B dataset embeddings k in
  0 < B ->
  enable_retry (config self) = true ->
  Z.of_nat j < max_retries (config self) ->
  transient_from (client self) (length (upsert_calls tr)) j ->
  upsert_reply (client self) (length (upsert_calls tr) + j) = None ->
  upload_loop self collection_name dataset embeddings named_vector
              vector_name (Z.of_nat k * B :: rest) total tr
  = upload_loop self collection_name dataset embeddings named_vector
                vector_name rest (total + len points)
      (tr ++ RetryEntered (Z.of_nat k)
          :: failed_attempts collection_name points
                             (initial_backoff (config self)) 0 j
          ++ [Upsert collection_name points]).
Proof.
  intros B points HB Hretry Hlt Hfail Hok.
  cbn [upload_loop]. fold B. rewrite prepare_points_batch by done.
  fold points. rewrite Hretry. unfold bind at 1.
  rewrite (upload_with_retry_recovers _ _ _ _ j) by done.
  by rewrite Z.div_mul by lia.
Qed.

(** One turn of the upload loop without retry, the batch accepted. *)
Lemma upload_loop_step_plain self collection_name dataset embeddings
    named_vector vector_name (k : nat) rest total tr :
  let B := batch_size (config self) in
  let points :=
    batch_points named_vector vector_name B dataset embeddings k in
  0 < B ->
  enable_retry (config self) = false ->
  upsert_reply (client self) (length (upsert_calls tr)) = None ->
  upload_loop self collection_name dataset embeddings named_vector
              vector_name (Z.of_nat k * B :: rest) total tr
  = upload_loop self collection_name dataset embeddings named_vector
                vector_name rest (total + len points)
      (tr ++ [Upsert collection_name points]).
Proof.
  intros B points HB Hretry Hok.
  cbn [upload_loop]. fold B. rewrite prepare_points_batch by done.
  fold points. rewrite Hretry. unfold bind, client_upsert, ret.
  by rewrite Hok.
Qed.

(** A run of batches, each accepted at its first attempt. *)
Lemma upload_loop_accepted self collection_name dataset embeddings
    named_vector vector_name (ks : list nat) rest total tr :
  let B := batch_size (config self) in
  let points :=
    batch_points named_vector vector_name B dataset embeddings in
  0 < B ->
  (enable_retry (config self) = true -> 0 < max_retries (config self)) ->
  accepted_from (client self) (length (upsert_calls tr)) (length ks) ->
  exists evs,
    upload_loop self collection_name dataset embeddings named_vector
                vector_name (((fun k => Z.of_nat k * B) <$> ks) ++ rest)
                total tr
    = upload_loop self collection_name dataset embeddings named_vector
                  vector_name rest
                  (total + len (concat (points <$> ks))) (tr ++ evs)
    /\ upsert_calls evs = (fun k => (collection_name, points k)) <$> ks
    /\ sleep_calls evs = [].
Proof.
  intros B points HB Hmax. revert total tr.
  induction ks as [|k ks IH]; intros total tr Hacc.
  - exists []. cbn. rewrite app_nil_r.
    unfold len. cbn. by rewrite Z.add_0_r.
  - pose proof (Hacc 0%nat ltac:(cbn; lia)) as Hk.
    rewrite Nat.add_0_r in Hk.
    assert (exists ev,
      upload_loop self collection_name dataset embeddings named_vector
        vector_name (Z.of_nat k * B :: ((fun k => Z.of_nat k * B) <$> ks) ++ rest)
        total tr
      = upload_loop self collection_name dataset embeddings named_vector
          vector_name (((fun k => Z.of_nat k * B) <$> ks) ++ rest)
          (total + len (points k)) (tr ++ ev)
      /\ upsert_calls ev = [(collection_name, points k)]
      /\ sleep_calls ev = []) as (ev & Hstep & Hups & Hsl).
    { destruct (enable_retry (config self)) eqn:Hretry.
      - eexists. split.
        + apply (upload_loop_step_retry _ _ _ _ _ _ k 0); try done.
          * apply Hmax; done.
          * intros i Hi. lia.
          * by rewrite Nat.add_0_r.
        + done.
      - eexists. split; [by apply upload_loop_step_plain|done]. }
    destruct (IH (total + len (points k)) (tr ++ ev)) as (evs & Hrun & Hcalls & Hsleeps).
    { intros i Hi. rewrite upsert_calls_app, length_app, Hups. cbn.
      rewrite <- (Hacc (S i)); [f_equal; lia | cbn; lia]. }
    exists (ev ++ evs). split; [|split].
    + cbn [fmap list_fmap app]. rewrite Hstep, Hrun. f_equal.
      * unfold len. cbn [fmap list_fmap concat].
        rewrite length_app. lia.
      * by rewrite app_assoc.
    + by rewrite upsert_calls_app, Hups, Hcalls.
    + by rewrite sleep_calls_app, Hsl, Hsleeps.
Qed.

Lemma batch_count_covers (n B : Z) :
  0 <= n -> 0 < B -> (Z.to_nat n <= batch_count n B * Z.to_nat B)%nat.
Proof.
  intros Hn HB. unfold batch_count.
  assert (n <= (n + B - 1) / B * B); [|nia].
  pose proof (Z.mod_pos_bound (n + B - 1) B HB).
  pose proof (Z.div_mod (n + B - 1) B ltac:(lia)). nia.
Qed.

Lemma batch_entries_concat dataset embeddings (B : Z) :
  0 < B ->
  concat (batch_entries B dataset embeddings
            <$> seq 0 (batch_count (len (zip dataset embeddings)) B))
  = zip dataset embeddings.
Proof.
  intros HB. unfold batch_entries. apply chunks_concat.
  pose proof (batch_count_covers (len (zip dataset embeddings)) B) as H.
  unfold len in *. rewrite Nat2Z.id in H. apply H; lia.
Qed.

Lemma batch_points_total named_vector vector_name dataset embeddings
    (B : Z) :
  0 < B -> length dataset = length embeddings ->
  len (concat (batch_points named_vector vector_name B dataset embeddings
                 <$> seq 0 (batch_count (len dataset) B)))
  = len dataset.
Proof.
  intros HB Hlen. unfold len.
  assert (length (zip dataset embeddings) = length dataset) as Hzip.
  { rewrite length_zip_with. lia. }
  rewrite <- Hzip at 2.
  rewrite <- (batch_entries_concat dataset embeddings B HB) at 1.
  unfold len. rewrite Hzip. f_equal.
  generalize (seq 0 (batch_count (Z.of_nat (length dataset)) B)).
  intros ks. induction ks as [|k ks IH]; [done|].
  cbn [fmap list_fmap concat]. rewrite !length_app.
  unfold batch_points at 1. rewrite length_imap.
  cbn [fmap list_fmap] in IH. by rewrite IH.
Qed.

(** C4.  When the corpus and the vectors differ in length, the upload
    fails with the size-mismatch [ValueError] and the trace is left as it
    was: no upsert, no remote call at all, whatever the collection name. *)
Theorem upload_size_mismatch self collection_name dataset embeddings
    named_vector vector_name tr :
  length dataset <> length embeddings ->
  upload_batch self collection_name dataset embeddings named_vector
               vector_name tr
  = (Raise (ValueError (size_mismatch_message (len dataset)
                                              (len embeddings))),
     tr).
Proof.
  intros Hne. unfold upload_batch, len.
  destruct (Z.eqb_spec (Z.of_nat (length dataset))
                       (Z.of_nat (length embeddings))); [lia|].
  reflexivity.
Qed.

(** C10.  Uploading an empty corpus with no vectors succeeds with a count
    of 0 and leaves the trace as it was (no upsert), for every collection
    name; the batch size is any non-zero integer, as a zero step makes
    [range] itself fail. *)
Theorem upload_empty self collection_name named_vector vector_name tr :
  batch_size (config self) <> 0 ->
  upload_batch self collection_name [] [] named_vector vector_name tr
  = (Ok 0, tr).
Proof.
  intros HB. unfold upload_batch, range, range_len. cbn [len length negb].
  change (Z.of_nat 0 =? Z.of_nat 0) with true. cbn [negb].
  destruct (Z.eqb_spec (batch_size (config self)) 0); [done|].
  change (Z.of_nat 0) with 0.
  destruct (0 <? batch_size (config self)); reflexivity.
Qed.

(** C1.  A corpus of [n] items with [n] vectors, batch size [B > 0], a
    service that accepts the upserts (and, under retry, a positive retry
    budget): the upload returns [n]; its upserts are, in this order, one
    per batch [k = 0, 1, ...], batch [k] carrying the [k]-th run of [B]
    consecutive entries of the zipped corpus (the last run possibly
    shorter), entry [j] of it under the identifier [k * B + j]; and the
    batches together are the whole zipped corpus. *)
Theorem upload_batches_in_order self collection_name dataset embeddings
    named_vector vector_name :
  let B := batch_size (config self) in
  let batches := batch_count (len dataset) B in
  length dataset = length embeddings ->
  0 < B ->
  (enable_retry (config self) = true -> 0 < max_retries (config self)) ->
  accepted_from (client self) 0 batches ->
  exists tr,
    upload_batch self collection_name dataset embeddings named_vector
                 vector_name []
    = (Ok (len dataset), tr)
    /\ upsert_calls tr
       = (fun k => (collection_name,
                    batch_points named_vector vector_name B dataset
                                 embeddings k))
         <$> seq 0 batches
    /\ concat (batch_entries B dataset embeddings <$> seq 0 batches)
       = zip dataset embeddings.
Proof.
  intros B batches Hlen HB Hmax Hacc.
  destruct (upload_loop_accepted self collection_name dataset embeddings
              named_vector vector_name (seq 0 batches) [] 0 [])
    as (evs & Hrun & Hcalls & _); [done|done| |].
  { by rewrite length_seq. }
  exists evs. split; [|split].
  - unfold upload_batch.
    destruct (Z.eqb_spec (len dataset) (len embeddings)) as [_|Hne];
      [|unfold len in Hne; lia].
    cbn [negb]. rewrite range_batches by (unfold len; lia).
    rewrite app_nil_r in Hrun.
    etrans; [exact Hrun|]. cbn [upload_loop app].
    unfold ret. f_equal.
    subst batches B. rewrite batch_points_total by done.
    by rewrite Z.add_0_l.
  - exact Hcalls.
  - subst batches. replace (len dataset) with (len (zip dataset embeddings)).
    + by apply batch_entries_concat.
    + unfold len. rewrite length_zip_with. lia.
Qed.

(** C2.  Upload with retry enabled; batch [t] fails [j] times with a
    transient error, [j] below the retry budget, and the service accepts
    every other attempt.  Then the upload succeeds with the count of the
    whole corpus; the failed attempts on batch [t] are each followed by one
    wait, of [initial_backoff * 1], [initial_backoff * 2], ...,
    [initial_backoff * j] seconds, before the same batch is sent again;
    these are the only waits of the run.  (With a budget of 3, a backoff
    of 2.0 and two failures: waits of 2.0 s and 4.0 s.) *)
Theorem retry_linear_backoff self collection_name dataset embeddings
    named_vector vector_name (t j : nat) :
  let B := batch_size (config self) in
  let batches := batch_count (len dataset) B in
  let backoff := initial_backoff (config self) in
  let points :=
    batch_points named_vector vector_name B dataset embeddings in
  length dataset = length embeddings ->
  0 < B ->
  enable_retry (config self) = true ->
  (t < batches)%nat ->
  Z.of_nat j < max_retries (config self) ->
  accepted_from (client self) 0 t ->
  transient_from (client self) t j ->
  accepted_from (client self) (t + j) (batches - t) ->
  exists before after,
    let tr :=
      before
      ++ RetryEntered (Z.of_nat t)
         :: failed_attempts collection_name (points t) backoff 0 j
      ++ Upsert collection_name (points t) :: after in
    upload_batch self collection_name dataset embeddings named_vector
                 vector_name []
    = (Ok (len dataset), tr)
    /\ sleep_calls tr
       = (fun a => (backoff * inject_Z a)%Q) <$> seqZ 1 (Z.of_nat j)
    /\ upsert_calls before
       = (fun k => (collection_name, points k)) <$> seq 0 t
    /\ upsert_calls after
       = (fun k => (collection_name, points k))
         <$> seq (S t) (batches - S t).
Proof.
  intros B batches backoff points Hlen HB Hretry Ht Hj Hpre Hfail Hpost.
  assert (seq 0 batches = seq 0 t ++ t :: seq (S t) (batches - S t))
    as Hsplit.
  { replace batches with (t + S (batches - S t))%nat at 1 by lia.
    by rewrite seq_app. }
  destruct (upload_loop_accepted self collection_name dataset embeddings
              named_vector vector_name (seq 0 t)
              ((fun k => Z.of_nat k * B) <$> t :: seq (S t) (batches - S t))
              0 [])
    as (before & Hrun1 & Hcalls1 & Hsleeps1); [done|lia| |].
  { by rewrite length_seq. }
  cbn [app] in Hrun1.
  assert (length (upsert_calls before) = t) as Hcount1.
  { by rewrite Hcalls1, length_fmap, length_seq. }
  set (mid := RetryEntered (Z.of_nat t)
              :: failed_attempts collection_name (points t) backoff 0 j
              ++ [Upsert collection_name (points t)]).
  assert (length (upsert_calls (before ++ mid)) = (t + j + 1)%nat)
    as Hcount2.
  { rewrite upsert_calls_app, length_app, Hcount1. subst mid.
    change (upsert_calls (RetryEntered (Z.of_nat t) :: ?l))
      with (upsert_calls l).
    rewrite upsert_calls_app, length_app, failed_attempts_upserts,
      length_replicate. cbn. lia. }
  destruct (upload_loop_accepted self collection_name dataset embeddings
              named_vector vector_name (seq (S t) (batches - S t)) []
              (0 + len (concat (points <$> seq 0 t)) + len (points t))
              (before ++ mid))
    as (after & Hrun3 & Hcalls3 & Hsleeps3); [done|lia| |].
  { rewrite Hcount2, length_seq. intros i Hi.
    rewrite <- (Hpost (S i)) by lia. f_equal. lia. }
  rewrite app_nil_r in Hrun3.
  exists before, after. cbv zeta. split; [|split; [|split]].
  - unfold upload_batch.
    destruct (Z.eqb_spec (len dataset) (len embeddings)) as [_|Hne];
      [|unfold len in Hne; lia].
    cbn [negb]. rewrite range_batches by (unfold len; lia).
    change (Z.to_nat ((len dataset + batch_size (config self) - 1)
                      / batch_size (config self))) with batches.
    rewrite Hsplit, fmap_app.
    etrans; [exact Hrun1|]. cbn [fmap list_fmap].
    etrans; [apply (upload_loop_step_retry _ _ _ _ _ _ t j); try done|].
    + cbn [app]. by rewrite Hcount1.
    + cbn [app]. rewrite Hcount1.
      rewrite <- (Hpost 0%nat) by lia. f_equal. lia.
    + cbn [app] in *.
      etrans; [exact Hrun3|]. cbn [upload_loop]. unfold ret. f_equal.
      * f_equal. rewrite <- (batch_points_total named_vector vector_name
                             dataset embeddings B) by done.
        fold points batches. rewrite Hsplit, fmap_app.
        cbn [fmap list_fmap]. rewrite concat_app. cbn [concat].
        unfold len. rewrite !length_app.
        change (batch_points named_vector vector_name
                  (batch_size (config self)) dataset embeddings)
          with points.
        lia.
      * subst mid. rewrite <- !app_assoc. cbn [app].
        by rewrite <- !app_assoc.
  - rewrite sleep_calls_app, Hsleeps1. cbn [app].
    change (sleep_calls (RetryEntered (Z.of_nat t) :: ?l))
      with (sleep_calls l).
    rewrite sleep_calls_app, failed_attempts_sleeps.
    change (sleep_calls (Upsert collection_name (points t) :: after))
      with (sleep_calls after).
    by rewrite Hsleeps3, app_nil_r.
  - exact Hcalls1.
  - exact Hcalls3.
Qed.

(** C3, as the code has it.  Upload with retry enabled and a budget of 2,
    on a non-empty corpus, the service failing the first two upserts with
    a transient error: [_upload_with_retry] is invoked once, for the first
    batch; it sends that batch twice, waiting [initial_backoff * 1]
    seconds in between, and then re-raises the error of the second
    attempt as it is, which ends the upload. *)
Theorem retry_exhausted_after_two_attempts self collection_name dataset
    embeddings named_vector vector_name msg1 msg2 :
  let B := batch_size (config self) in
  let points :=
    batch_points named_vector vector_name B dataset embeddings 0 in
  length dataset = length embeddings ->
  dataset <> [] ->
  0 < B ->
  enable_retry (config self) = true ->
  max_retries (config self) = 2 ->
  upsert_reply (client self) 0 = Some (ResponseHandlingException msg1) ->
  upsert_reply (client self) 1 = Some (ResponseHandlingException msg2) ->
  exists tr,
    upload_batch self collection_name dataset embeddings named_vector
                 vector_name []
    = (Raise (ResponseHandlingException msg2), tr)
    /\ tr = [RetryEntered 0;
             Upsert collection_name points;
             Sleep (initial_backoff (config self) * 1)%Q;
             Upsert collection_name points]
    /\ length (upsert_calls tr) = 2%nat
    /\ retry_invocations tr = [0].
Proof.
  intros B points Hlen Hne HB Hretry Hmax H0 H1.
  eexists. split; [|split; [reflexivity|split; reflexivity]].
  unfold upload_batch.
  destruct (Z.eqb_spec (len dataset) (len embeddings)) as [_|Hbad];
    [|unfold len in Hbad; lia].
  cbn [negb]. rewrite range_batches by (unfold len; lia).
  assert (exists r,
    Z.to_nat ((len dataset + batch_size (config self) - 1)
              / batch_size (config self)) = S r) as [r ->].
  { fold B. destruct dataset as [|x dataset]; [done|].
    assert (1 <= (len (x :: dataset) + B - 1) / B).
    { apply Z.div_le_lower_bound; [lia|]. unfold len. cbn [length]. lia. }
    exists (Z.to_nat ((len (x :: dataset) + B - 1) / B) - 1)%nat. lia. }
  cbn [seq fmap list_fmap upload_loop].
  rewrite (prepare_points_batch _ _ _ _ _ 0) by done.
  fold B. fold points. rewrite Hretry.
  unfold bind at 1. unfold _upload_with_retry.
  unfold bind at 1. unfold enter_retry at 1.
  rewrite Hmax. change (seqZ 0 2) with [0; 1].
  rewrite (retry_loop_step_wait _ _ _ _ _ msg1) by (done || lia).
  rewrite (retry_loop_step_raise _ _ _ _ _ msg2) by (done || lia).
  cbn [app]. rewrite Z.div_mul by lia. reflexivity.
Qed.

End UploaderFacts.

(** The size check on a corpus of 3 items with 2 vectors. *)
Lemma upload_size_mismatch_witness :
  Uploader.upload_batch
    (Scenario.uploader Scenario.accepting 50 false 3 2)
    "bench" (Scenario.items 3) (Scenario.vectors 2) true "dense" []
  = (Raise (ValueError
              "Dataset size (3) doesn't match embeddings size (2)"), []).
Proof. apply upload_size_mismatch. cbn. lia. Defined.

(** The empty upload with the default batch size. *)
Lemma upload_empty_witness :
  Uploader.upload_batch (Item := nat)
    (Scenario.uploader Scenario.accepting 50 false 3 2)
    "bench" [] [] true "dense" []
  = (Ok 0, []).
Proof. apply upload_empty. cbn. lia. Defined.

(** The end-to-end scenario: 20 items, batch size 5, retry disabled give 4
    upserts of 5 points each, with the identifiers 0..4, 5..9, 10..14 and
    15..19, and the count 20. *)
Lemma upload_20_items_by_5 :
  let run :=
    Uploader.upload_batch
      (Scenario.uploader Scenario.accepting 5 false 3 2)
      "bench" (Scenario.items 20) (Scenario.vectors 20) true "dense" [] in
  run.1 = Ok 20
  /\ Scenario.uploaded_ids run.2
     = [[0; 1; 2; 3; 4]; [5; 6; 7; 8; 9]; [10; 11; 12; 13; 14];
        [15; 16; 17; 18; 19]].
Proof.
  destruct (upload_batches_in_order
              (Scenario.uploader Scenario.accepting 5 false 3 2)
              "bench" (Scenario.items 20) (Scenario.vectors 20) true "dense")
    as (tr & Hrun & Hcalls & _).
  - reflexivity.
  - cbn. lia.
  - cbn. discriminate.
  - intros i _. reflexivity.
  - cbv zeta. rewrite Hrun. split; [reflexivity|].
    unfold Scenario.uploaded_ids. cbn [snd]. rewrite Hcalls.
    vm_compute. reflexivity.
Defined.

(** A budget of 3 and a backoff of 2.0: the only batch fails twice, then
    goes through; the waits are 2.0 s and 4.0 s, and the count is right. *)
Lemma retry_waits_2_then_4 :
  let run :=
    Uploader.upload_batch
      (Scenario.uploader (Scenario.failing_first 2) 5 true 3 2)
      "bench" (Scenario.items 3) (Scenario.vectors 3) true "dense" [] in
  run.1 = Ok 3
  /\ Uploader.sleep_calls run.2 = [2%Q; 4%Q]
  /\ length (Uploader.upsert_calls run.2) = 3%nat.
Proof.
  destruct (retry_linear_backoff
              (Scenario.uploader (Scenario.failing_first 2) 5 true 3 2)
              "bench" (Scenario.items 3) (Scenario.vectors 3) true "dense"
              0 2)
    as (before & after & Hrun & Hsleeps & Hbefore & Hafter).
  - reflexivity.
  - cbn. lia.
  - reflexivity.
  - vm_compute. lia.
  - cbn. lia.
  - intros i Hi. lia.
  - intros i Hi. exists "Timeout".
    destruct i as [|[|i]]; [reflexivity|reflexivity|lia].
  - intros i Hi. reflexivity.
  - cbv zeta in Hrun, Hsleeps. cbv zeta. rewrite Hrun. cbn [fst snd].
    split; [reflexivity|]. split.
    + rewrite Hsleeps. reflexivity.
    + rewrite !upsert_calls_app.
      change (Uploader.upsert_calls (Uploader.RetryEntered ?b :: ?l))
        with (Uploader.upsert_calls l).
      rewrite upsert_calls_app, failed_attempts_upserts, Hbefore.
      change (Uploader.upsert_calls (Uploader.Upsert ?n ?p :: after))
        with ((n, p) :: Uploader.upsert_calls after).
      rewrite Hafter. reflexivity.
Defined.

(** The retry budget of 2 on a service that never answers: one invocation
    of [_upload_with_retry], two upserts, the time-out re-raised. *)
Lemma retry_exhausted_witness :
  let run :=
    Uploader.upload_batch
      (Scenario.uploader Scenario.always_failing 5 true 2 2)
      "bench" (Scenario.items 1) (Scenario.vectors 1) true "dense" [] in
  run.1 = Raise (ResponseHandlingException "Timeout")
  /\ length (Uploader.upsert_calls run.2) = 2%nat
  /\ Uploader.retry_invocations run.2 = [0].
Proof.
  destruct (retry_exhausted_after_two_attempts
              (Scenario.uploader Scenario.always_failing 5 true 2 2)
              "bench" (Scenario.items 1) (Scenario.vectors 1) true "dense"
              "Timeout" "Timeout")
    as (tr & Hrun & _ & Hups & Hinv); try reflexivity.
  - discriminate.
  - cbv zeta. rewrite Hrun. cbn [fst snd]. by rewrite Hups, Hinv.
Defined.

(** C3, as it is worded, fails: with a budget of 2 and a service that never
    answers, [_upload_with_retry] is not invoked 2 times (it is invoked
    once, and the upload ends there). *)
Lemma retry_invoked_twice_counterexample :
  length (Uploader.retry_invocations
            (Uploader.upload_batch
               (Scenario.uploader Scenario.always_failing 5 true 2 2)
               "bench" (Scenario.items 1) (Scenario.vectors 1) true "dense"
               []).2)
  <> 2%nat.
Proof. vm_compute. discriminate. Qed.

(** ** The NumPy reductions *)

Section NpFacts.

Lemma insert_sorted_Forall (P : Q -> Prop) (x : Q) (l : list Q) :
  P x -> Forall P l -> Forall P (Np.insert_sorted x l).
Proof.
  intros Hx Hl. induction Hl as [|y l Hy Hl IH]; cbn.
  - by constructor.
  - destruct (Qle_bool x y); repeat constructor; done.
Qed.

Lemma insert_sorted_sorted (x : Q) (l : list Q) :
  StronglySorted Qle l -> StronglySorted Qle (Np.insert_sorted x l).
Proof.
  induction 1 as [|y l Hsorted IH Hall]; cbn.
  - repeat constructor.
  - destruct (Qle_bool x y) eqn:Hxy.
    + apply Qle_bool_iff in Hxy.
      apply SSorted_cons; [by apply SSorted_cons|].
      constructor; [done|].
      eapply Forall_impl; [exact Hall|].
      intros z Hz. by apply Qle_trans with y.
    + apply SSorted_cons; [done|].
      apply insert_sorted_Forall; [|done].
      destruct (Qlt_le_dec y x) as [Hlt|Hle]; [by apply Qlt_le_weak|].
      apply Qle_bool_iff in Hle. congruence.
Qed.

Lemma sort_sorted (l : list Q) : StronglySorted Qle (Np.sort l).
Proof.
  unfold Np.sort. induction l as [|x l IH]; cbn.
  - constructor.
  - by apply insert_sorted_sorted.
Qed.

Lemma length_insert_sorted (x : Q) (l : list Q) :
  length (Np.insert_sorted x l) = S (length l).
Proof.
  induction l as [|y l IH]; cbn; [done|].
  destruct (Qle_bool x y); cbn; by rewrite ?IH.
Qed.

Lemma length_sort (l : list Q) : length (Np.sort l) = length l.
Proof.
  unfold Np.sort. induction l as [|x l IH]; cbn; [done|].
  by rewrite length_insert_sorted, IH.
Qed.

Lemma insert_sorted_perm (x : Q) (l : list Q) :
  Np.insert_sorted x l ≡ₚ x :: l.
Proof.
  induction l as [|y l IH]; cbn; [done|].
  destruct (Qle_bool x y); [done|].
  rewrite IH. apply Permutation_swap.
Qed.

(** The sorted sample is a rearrangement of the sample. *)
Lemma sort_perm (l : list Q) : Np.sort l ≡ₚ l.
Proof.
  unfold Np.sort. induction l as [|x l IH]; cbn; [done|].
  by rewrite insert_sorted_perm, IH.
Qed.

(** In a sorted sample, a higher rank has no smaller value. *)
Lemma sorted_nth_le (s : list Q) (i j : nat) :
  StronglySorted Qle s -> (i <= j)%nat -> (j < length s)%nat ->
  (nth i s 0 <= nth j s 0)%Q.
Proof.
  intros Hs. revert i j. induction Hs as [|x s Hs IH Hall]; intros i j Hij Hj.
  - cbn in Hj. lia.
  - destruct i as [|i], j as [|j]; cbn in *; try lia.
    + apply Qle_refl.
    + rewrite Forall_forall in Hall. apply Hall.
      apply list_elem_of_In, nth_In. lia.
    + apply IH; lia.
Qed.

(** The interpolated value does not decrease with the fractional rank. *)
Lemma interpolate_mono (s : list Q) (x y : Q) :
  StronglySorted Qle s ->
  (0 <= x)%Q -> (x <= y)%Q -> (y <= inject_Z (len s - 1))%Q ->
  (Np.interpolate s x <= Np.interpolate s y)%Q.
Proof.
  intros Hs Hx Hxy Hy. unfold Np.interpolate.
  set (n := len s).
  pose proof (Qfloor_le x) as Hfx. pose proof (Qlt_floor x) as Hcx.
  pose proof (Qfloor_le y) as Hfy. pose proof (Qlt_floor y) as Hcy.
  assert (0 <= Qfloor x) as Hlx.
  { rewrite <- (Qfloor_Z 0). by apply Qfloor_resp_le. }
  assert (Qfloor x <= Qfloor y) as Hlxy by by apply Qfloor_resp_le.
  assert (Qfloor y <= n - 1) as Hly.
  { rewrite <- (Qfloor_Z (n - 1)). by apply Qfloor_resp_le. }
  assert (forall i j : Z, 0 <= i -> i <= j -> j <= n - 1 ->
            (nth (Z.to_nat i) s 0 <= nth (Z.to_nat j) s 0)%Q) as Hnth.
  { intros i j Hi Hij Hj. apply sorted_nth_le; [done|lia|].
    subst n. unfold len in Hj. lia. }
  set (lx := Qfloor x) in *. set (ly := Qfloor y) in *.
  rewrite inject_Z_plus in Hcx, Hcy.
  change (inject_Z 1) with 1%Q in *.
  pose proof (Hnth lx (Z.min (lx + 1) (n - 1)) ltac:(lia) ltac:(lia)
                ltac:(lia)) as Hsegx.
  pose proof (Hnth ly (Z.min (ly + 1) (n - 1)) ltac:(lia) ltac:(lia)
                ltac:(lia)) as Hsegy.
  destruct (Z.eq_dec lx ly) as [Heq|Hne].
  - rewrite <- Heq in *.
    set (a := nth (Z.to_nat lx) s 0%Q) in *.
    set (b := nth (Z.to_nat (Z.min (lx + 1) (n - 1))) s 0%Q) in *.
    set (flo := inject_Z lx) in *.
    nra.
  - pose proof (Hnth (Z.min (lx + 1) (n - 1)) ly ltac:(lia) ltac:(lia)
                  ltac:(lia)) as Hmid.
    set (a := nth (Z.to_nat lx) s 0%Q) in *.
    set (b := nth (Z.to_nat (Z.min (lx + 1) (n - 1))) s 0%Q) in *.
    set (c := nth (Z.to_nat ly) s 0%Q) in *.
    set (d := nth (Z.to_nat (Z.min (ly + 1) (n - 1))) s 0%Q) in *.
    set (flx := inject_Z lx) in *. set (fly := inject_Z ly) in *.
    apply Qle_trans with b; [nra|].
    apply Qle_trans with c; [done|nra].
Qed.

(** The percentile of a non-empty sample does not decrease with [q]. *)
Lemma percentile_mono (a : list Q) (q1 q2 : Q) :
  a <> [] -> (0 <= q1)%Q -> (q1 <= q2)%Q -> (q2 <= 100)%Q ->
  (Np.percentile a q1 <= Np.percentile a q2)%Q.
Proof.
  intros Ha H1 H12 H2. unfold Np.percentile.
  assert (0 <= inject_Z (len (Np.sort a) - 1))%Q as Hn.
  { change 0%Q with (inject_Z 0). rewrite <- Zle_Qle.
    unfold len. rewrite length_sort. destruct a; [done|cbn; lia]. }
  set (m := inject_Z (len (Np.sort a) - 1)) in *.
  unfold Qdiv. change (/ 100)%Q with (1 # 100)%Q.
  apply interpolate_mono.
  - apply sort_sorted.
  - fold m. nra.
  - fold m. nra.
  - fold m. nra.
Qed.

End NpFacts.

(** ** The benchmark *)

Section BenchmarkFacts.

Import Benchmark BenchSpec.

Variable clock : nat -> Q.

Implicit Types (self : PerformanceBenchmark) (tr : world).

Lemma query_calls_app tr1 tr2 :
  query_calls (tr1 ++ tr2) = query_calls tr1 ++ query_calls tr2.
Proof. apply omap_app. Qed.

Lemma time_reads_app tr1 tr2 :
  time_reads (tr1 ++ tr2) = (time_reads tr1 + time_reads tr2)%nat.
Proof. unfold time_reads. by rewrite omap_app, length_app. Qed.

Lemma measuring_events_queries self collection_name using_ search_params
    queries :
  query_calls (measuring_events self collection_name using_ search_params
                                queries)
  = latency_query self collection_name using_ search_params <$> queries.
Proof.
  unfold query_calls. induction queries as [|text queries IH]; [done|].
  cbn. by rewrite <- IH.
Qed.

Lemma measured_latencies_S first n :
  measured_latencies clock first (S n)
  = ((clock (first + 1)%nat - clock first) * 1000)%Q
    :: measured_latencies clock (first + 2) n.
Proof.
  unfold measured_latencies. cbn [seq fmap list_fmap].
  rewrite <- fmap_S_seq, <- list_fmap_compose. f_equal.
  - by rewrite Nat.mul_0_r, !Nat.add_0_r.
  - apply list_fmap_ext. intros _ i _. cbn [compose].
    by replace (first + 2 * S i)%nat with (first + 2 + 2 * i)%nat by lia.
Qed.

(** The measuring loop on a service that answers: one sample per test
    query, appended in order. *)
Lemma measure_loop_run self collection_name using_ search_params queries
    latencies tr :
  answering (client self) ->
  measure_loop clock self collection_name using_ search_params queries
               latencies tr
  = (Ok (latencies
         ++ measured_latencies clock (time_reads tr) (length queries)),
     tr ++ measuring_events self collection_name using_ search_params
                            queries).
Proof.
  intros Hans. revert latencies tr.
  induction queries as [|text queries IH]; intros latencies tr.
  - cbn. by rewrite !app_nil_r.
  - cbn [measure_loop length]. rewrite measured_latencies_S.
    unfold bind at 1. unfold time_time at 1.
    unfold bind at 1. unfold client_query_points at 1.
    destruct (Hans (length (query_calls (tr ++ [TimeRead])))
                   (latency_query self collection_name using_ search_params
                                  text)) as [points Hpoints].
    unfold latency_query in Hpoints. rewrite Hpoints.
    unfold bind at 1. unfold time_time at 1.
    rewrite IH. f_equal.
    + rewrite <- app_assoc. cbn [app]. do 3 f_equal.
      * do 3 f_equal. rewrite !time_reads_app. cbn. lia.
      * f_equal. rewrite !time_reads_app. cbn. lia.
    + cbn [measuring_events flat_map]. rewrite <- !app_assoc. reflexivity.
Qed.


Lemma time_reads_warmup self collection_name using_ :
  time_reads (warmup_events self collection_name using_) = 0%nat.
Proof. unfold warmup_events. by destruct (warmup_enabled (config self)). Qed.


Lemma warmup_run self collection_name using_ tr :
  answering (client self) ->
  warmup self collection_name using_ tr
  = (Ok tt, tr ++ warmup_events self collection_name using_).
Proof.
  intros Hans. unfold warmup, warmup_events.
  destruct (warmup_enabled (config self)); cbn [negb].
  - unfold bind, client_query_points.
    destruct (Hans (length (query_calls tr))
                   (latency_query self collection_name using_ None
                                  "warmup query")) as [points Hpoints].
    unfold latency_query in *. by rewrite Hpoints.
  - by rewrite app_nil_r.
Qed.

(** One latency run on a service that answers, from any point of a
    trace. *)
Lemma measure_search_latency_run self collection_name test_queries using_
    search_params tr :
  answering (client self) ->
  measure_search_latency clock self collection_name test_queries using_
                         search_params tr
  = (Ok (_calculate_metrics
           (measured_latencies clock (time_reads tr)
                               (length (queries_of self test_queries)))),
     tr ++ warmup_events self collection_name using_
        ++ measuring_events self collection_name using_ search_params
                            (queries_of self test_queries)).
Proof.
  intros Hans. unfold measure_search_latency.
  unfold bind at 1. rewrite warmup_run by done.
  unfold bind at 1.
  change (match test_queries with
          | Some qs => qs
          | None => Config.test_queries (config self)
          end) with (queries_of self test_queries).
  rewrite measure_loop_run by done.
  rewrite time_reads_app, time_reads_warmup, Nat.add_0_r.
  cbn [app]. by rewrite <- app_assoc.
Qed.

(** C5.  On a sample of at least two latencies the percentiles of the
    metric bundle are in order: p50 <= p90 <= p95 <= p99 <= p99.5 <= p99.9
    (percentiles by linear interpolation between ranks, over exact
    rationals). *)
Theorem metric_bundle_ordered (latencies : list Q) :
  (2 <= length latencies)%nat ->
  let metrics := _calculate_metrics latencies in
  (p50 metrics <= p90 metrics)%Q
  /\ (p90 metrics <= p95 metrics)%Q
  /\ (p95 metrics <= p99 metrics)%Q
  /\ (p99 metrics <= p99_5 metrics)%Q
  /\ (p99_5 metrics <= p99_9 metrics)%Q.
Proof.
  intros Hlen metrics. subst metrics. cbn [_calculate_metrics p50 p90 p95 p99
                                          p99_5 p99_9].
  assert (latencies <> []) as Hne.
  { destruct latencies; [cbn in Hlen; lia|done]. }
  repeat split; apply percentile_mono; try done; lra.
Qed.



(** C7.  The accuracy score of a baseline and a candidate set of
    identifiers: the share of the baseline found in the candidate when the
    baseline is not empty, a number between 0 and 1, and 0 on an empty
    baseline; 0.6 for {1,2,3,4,5} against {1,2,3,6,7}. *)
Theorem accuracy_score_ratio (baseline_ids quantized_ids : gset Z) :
  (baseline_ids <> ∅ ->
   accuracy_score baseline_ids quantized_ids
   = (inject_Z (Z.of_nat (size (baseline_ids ∩ quantized_ids)))
      / inject_Z (Z.of_nat (size baseline_ids)))%Q)
  /\ (0 <= accuracy_score baseline_ids quantized_ids)%Q
  /\ (accuracy_score baseline_ids quantized_ids <= 1)%Q
  /\ accuracy_score ∅ quantized_ids = 0%Q
  /\ (accuracy_score {[1; 2; 3; 4; 5]}%Z {[1; 2; 3; 6; 7]}%Z == 0.6)%Q.
Proof.
  assert (baseline_ids <> ∅ ->
          (0 < inject_Z (Z.of_nat (size baseline_ids)))%Q) as Hpos.
  { intros Hne. change 0%Q with (inject_Z 0). rewrite <- Zlt_Qlt.
    assert (size baseline_ids <> 0%nat); [|lia].
    intros Hsize. apply Hne. by apply leibniz_equiv, size_empty_inv. }
  assert ((0 <= inject_Z (Z.of_nat (size (baseline_ids ∩ quantized_ids))))%Q)
    as Hover.
  { change 0%Q with (inject_Z 0). rewrite <- Zle_Qle. lia. }
  assert ((inject_Z (Z.of_nat (size (baseline_ids ∩ quantized_ids)))
           <= inject_Z (Z.of_nat (size baseline_ids)))%Q) as Hsub.
  { rewrite <- Zle_Qle. apply inj_le, subseteq_size, intersection_subseteq_l. }
  unfold accuracy_score. split; [|split; [|split; [|split]]].
  - intros Hne. by rewrite bool_decide_false.
  - case_bool_decide as Hempty; [apply Qle_refl|].
    apply Qle_shift_div_l; [by apply Hpos|]. by rewrite Qmult_0_l.
  - case_bool_decide as Hempty; [done|].
    apply Qle_shift_div_r; [by apply Hpos|]. by rewrite Qmult_1_l.
  - by rewrite bool_decide_true.
  - vm_compute. reflexivity.
Qed.

End BenchmarkFacts.

(** The values the repository's own test expects of the metrics of
    10, 20, ..., 100. *)
Lemma calculate_metrics_test_values :
  let metrics :=
    Benchmark._calculate_metrics [10; 20; 30; 40; 50; 60; 70; 80; 90; 100]%Q in
  (Benchmark.avg metrics == 55)%Q
  /\ (Benchmark.p50 metrics == 55)%Q
  /\ (Benchmark.p90 metrics == 91)%Q
  /\ (Benchmark.p99 metrics == 99.1)%Q.
Proof. repeat split; vm_compute; reflexivity. Qed.

(** The order of the percentiles on the sample 30, 10, 20. *)
Lemma metric_bundle_ordered_witness :
  let metrics := Benchmark._calculate_metrics [30; 10; 20]%Q in
  (Benchmark.p50 metrics <= Benchmark.p90 metrics)%Q
  /\ (Benchmark.p90 metrics <= Benchmark.p95 metrics)%Q
  /\ (Benchmark.p95 metrics <= Benchmark.p99 metrics)%Q
  /\ (Benchmark.p99 metrics <= Benchmark.p99_5 metrics)%Q
  /\ (Benchmark.p99_5 metrics <= Benchmark.p99_9 metrics)%Q.
Proof. apply (metric_bundle_ordered [30; 10; 20]%Q). cbn. lia. Defined.




(** ** The collection manager *)

Section ManagerFacts.

Import Manager ManagerSpec.

Implicit Types (self : QdrantCollectionManager) (w : world).

Lemma delete_collection_run self collection_name w :
  delete_collection self collection_name w
  = (Ok tt,
     {| trace := trace w ++ delete_if_exists_events w collection_name;
        collections := delete collection_name (collections w) |}).
Proof.
  unfold delete_collection, collection_exists, bind,
    client_collection_exists, delete_if_exists_events.
  case_bool_decide as Hex.
  - unfold client_delete_collection, log. cbn.
    by rewrite <- app_assoc.
  - unfold ret, log. cbn. f_equal. f_equal.
    symmetry. apply delete_id.
    by destruct (collections w !! collection_name); [destruct Hex|].
Qed.

(** Recreating a collection of a kind that can be created: the
    delete-if-exists step, then the creation by kind; the service then holds
    the collection with the layout of the kind. *)
Lemma recreate_collection_creates self collection_name collection_type
    quantization_config params w :
  params_by_kind self collection_type quantization_config = Some params ->
  recreate_collection self collection_name collection_type
                      quantization_config w
  = (Ok tt,
     {| trace := trace w ++ delete_if_exists_events w collection_name
                         ++ [CreateCollection collection_name params];
        collections := <[collection_name := params]> (collections w) |}).
Proof.
  intros Hparams. unfold recreate_collection, bind.
  rewrite delete_collection_run.
  assert (forall p,
    client_create_collection collection_name p
      {| trace := trace w ++ delete_if_exists_events w collection_name;
         collections := delete collection_name (collections w) |}
    = (Ok tt,
       {| trace := trace w ++ delete_if_exists_events w collection_name
                           ++ [CreateCollection collection_name p];
          collections := <[collection_name := p]> (collections w) |}))
    as Hcreate.
  { intros p. unfold client_create_collection. cbn [collections trace].
    rewrite lookup_delete_eq, insert_delete_eq. by rewrite <- app_assoc. }
  unfold params_by_kind in Hparams.
  destruct (String.eqb collection_type "hybrid").
  - injection Hparams as <-. apply Hcreate.
  - destruct (String.eqb collection_type "quantized").
    + destruct quantization_config as [scheme|]; [|done].
      injection Hparams as <-. apply Hcreate.
    + injection Hparams as <-. apply Hcreate.
Qed.

(** Recreating a quantized collection without a quantization: the
    [ValueError] comes after the delete-if-exists step, which has been sent
    to the service. *)
Lemma recreate_quantized_without_config self collection_name w :
  recreate_collection self collection_name "quantized" None w
  = (Raise (ValueError
              "quantization_config required for quantized collection"),
     {| trace := trace w ++ delete_if_exists_events w collection_name;
        collections := delete collection_name (collections w) |}).
Proof.
  unfold recreate_collection, bind. by rewrite delete_collection_run.
Qed.

(** C8, on the code.  Recreating the existing collection "products" as a
    quantized one with no quantization given fails with the configuration
    error, but only after two remote calls, the existence check and the
    deletion: the service no longer holds "products". *)
Theorem recreate_quantized_without_config_deletes_first :
  let run :=
    recreate_collection default_manager "products" "quantized" None
                        one_collection in
  run.1 = Raise (ValueError
                   "quantization_config required for quantized collection")
  /\ trace run.2 = [CollectionExists "products"; DeleteCollection "products"]
  /\ collections run.2 !! "products" = None
  /\ is_Some (collections one_collection !! "products").
Proof.
  cbv zeta. rewrite recreate_quantized_without_config. cbn [fst snd].
  split; [done|]. split; [|split].
  - cbn [trace collections one_collection app]. unfold delete_if_exists_events.
    by rewrite bool_decide_true by (by eexists).
  - cbn [collections]. apply lookup_delete_eq.
  - by eexists.
Qed.

End ManagerFacts.

(** ** More on the uploader: identifiers, failures, degenerate settings *)

Section UploaderEdges.

Context {Item : Type}.

Import Uploader UploadSpec.

Implicit Types (self : DataUploader) (tr : world Item)
  (points : list (PointStruct Item)) (dataset : list Item)
  (embeddings : list Vector).

Lemma imap_point_ids named_vector vector_name (start : Z)
    (entries : list (Item * Vector)) :
  id <$> imap (fun j => point_of named_vector vector_name
                                 (start + Z.of_nat j)) entries
  = seqZ start (Z.of_nat (length entries)).
Proof.
  revert start. induction entries as [|entry entries IH]; intros start.
  - done.
  - rewrite imap_cons. cbn [fmap list_fmap length].
    rewrite seqZ_cons by lia. f_equal; [cbn; lia|].
    rewrite (imap_ext _ (fun j => point_of named_vector vector_name
                                           (Z.succ start + Z.of_nat j))).
    + rewrite IH. f_equal. lia.
    + intros j x _. cbn. f_equal. lia.
Qed.

Lemma prepare_points_point_of dataset embeddings start named_vector
    vector_name :
  _prepare_points dataset embeddings start named_vector vector_name
  = imap (fun j => point_of named_vector vector_name (start + Z.of_nat j))
         (zip dataset embeddings).
Proof.
  unfold _prepare_points. apply imap_ext. by intros j [item embedding] _.
Qed.

(** X1.  The points prepared for a batch carry consecutive identifiers from
    [start_id], one per pair of the two lists zipped; what one list has
    beyond the length of the other is dropped, and the payloads are the
    items in their order. *)
Theorem prepare_points_ids dataset embeddings start_id named_vector
    vector_name :
  let points :=
    _prepare_points dataset embeddings start_id named_vector vector_name in
  id <$> points
  = seqZ start_id (Z.of_nat (length dataset `min` length embeddings))
  /\ payload <$> points = take (length embeddings) dataset.
Proof.
  cbv zeta. rewrite prepare_points_point_of. split.
  - rewrite imap_point_ids. by rewrite length_zip_with.
  - generalize start_id. revert embeddings.
    induction dataset as [|item dataset IH]; intros embeddings start.
    + by rewrite take_nil.
    + destruct embeddings as [|embedding embeddings]; [done|].
      cbn [zip_with length take]. rewrite imap_cons.
      cbn [fmap list_fmap]. f_equal.
      rewrite (imap_ext _ (fun j => point_of named_vector vector_name
                                             (Z.succ start + Z.of_nat j))).
      * apply IH.
      * intros j x _. cbn. f_equal. lia.
Qed.

(** Numbering the pieces of a list piece by piece is numbering the list. *)
Lemma chunks_imap_concat {A B} (f : nat -> A -> B) (size count : nat)
    (l : list A) (offset : nat) :
  (0 < size)%nat -> (length l <= count * size)%nat ->
  concat ((fun k => imap (fun j => f (offset + k * size + j)%nat)
                         (take size (drop (k * size) l)))
          <$> seq 0 count)
  = imap (fun j => f (offset + j)%nat) l.
Proof.
  intros Hsize. revert l offset.
  induction count as [|count IH]; intros l offset Hlen.
  - destruct l; [done|cbn in Hlen; lia].
  - cbn [seq fmap list_fmap concat]. rewrite <- fmap_S_seq.
    rewrite <- list_fmap_compose.
    rewrite (list_fmap_ext _
      (fun k => imap (fun j => f (offset + size + k * size + j)%nat)
                     (take size (drop (k * size) (drop size l))))).
    + rewrite IH by (rewrite length_drop; lia).
      rewrite <- (take_drop size l) at 3. rewrite imap_app. f_equal.
      * apply imap_ext. intros j x _. f_equal. cbn. lia.
      * destruct (decide (size <= length l)%nat) as [Hle|Hgt].
        -- apply imap_ext. intros j x _. f_equal.
           rewrite length_take. lia.
        -- by rewrite drop_ge by lia.
    + intros _ k _. cbn [compose]. rewrite drop_drop.
      replace (size + k * size)%nat with (S k * size)%nat by lia.
      apply imap_ext. intros j x _. f_equal. lia.
Qed.

Lemma batch_points_concat named_vector vector_name dataset embeddings
    (B : Z) :
  0 < B -> length dataset = length embeddings ->
  concat (batch_points named_vector vector_name B dataset embeddings
            <$> seq 0 (batch_count (len dataset) B))
  = imap (fun j => point_of named_vector vector_name (Z.of_nat j))
         (zip dataset embeddings).
Proof.
  intros HB Hlen.
  etrans;
    [|apply (chunks_imap_concat
               (fun j => point_of named_vector vector_name (Z.of_nat j))
               (Z.to_nat B) (batch_count (len dataset) B)
               (zip dataset embeddings) 0)].
  - f_equal. apply list_fmap_ext. intros _ k _.
    unfold batch_points, batch_entries. apply imap_ext.
    intros j x _. f_equal. lia.
  - lia.
  - pose proof (batch_count_covers (len dataset) B) as Hcover.
    rewrite length_zip_with. unfold len in *.
    rewrite Nat2Z.id in Hcover. specialize (Hcover ltac:(lia) HB). lia.
Qed.

(** The run of an upload whose batches are all accepted at their first
    attempt. *)
Lemma upload_batch_accepted_run self collection_name dataset embeddings
    named_vector vector_name :
  let B := batch_size (config self) in
  let batches := batch_count (len dataset) B in
  length dataset = length embeddings ->
  0 < B ->
  (enable_retry (config self) = true -> 0 < max_retries (config self)) ->
  accepted_from (client self) 0 batches ->
  exists tr,
    upload_batch self collection_name dataset embeddings named_vector
                 vector_name []
    = (Ok (len dataset), tr)
    /\ upsert_calls tr
       = (fun k => (collection_name,
                    batch_points named_vector vector_name B dataset
                                 embeddings k))
         <$> seq 0 batches
    /\ sleep_calls tr = [].
Proof.
  intros B batches Hlen HB Hmax Hacc.
  destruct (upload_loop_accepted self collection_name dataset embeddings
              named_vector vector_name (seq 0 batches) [] 0 [])
    as (evs & Hrun & Hcalls & Hsleeps); [done|done| |].
  { by rewrite length_seq. }
  exists evs. split; [|by split].
  unfold upload_batch.
  destruct (Z.eqb_spec (len dataset) (len embeddings)) as [_|Hne];
    [|unfold len in Hne; lia].
  cbn [negb]. rewrite range_batches by (unfold len; lia).
  rewrite app_nil_r in Hrun.
  etrans; [exact Hrun|]. cbn [upload_loop app].
  unfold ret. f_equal.
  subst batches B. rewrite batch_points_total by done.
  by rewrite Z.add_0_l.
Qed.

(** X2.  In an upload whose batches are all accepted, the points sent,
    taken over all upserts in order, are the entries of the zipped corpus
    numbered from 0: every item is sent exactly once, item [i] under the
    identifier [i], so the identifiers sent are 0, 1, ..., n-1 with no
    repetition. *)
Theorem uploaded_points_cover_corpus self collection_name dataset embeddings
    named_vector vector_name :
  let B := batch_size (config self) in
  length dataset = length embeddings ->
  0 < B ->
  (enable_retry (config self) = true -> 0 < max_retries (config self)) ->
  accepted_from (client self) 0 (batch_count (len dataset) B) ->
  exists tr,
    upload_batch self collection_name dataset embeddings named_vector
                 vector_name []
    = (Ok (len dataset), tr)
    /\ concat (snd <$> upsert_calls tr)
       = imap (fun j => point_of named_vector vector_name (Z.of_nat j))
              (zip dataset embeddings)
    /\ id <$> concat (snd <$> upsert_calls tr) = seqZ 0 (len dataset)
    /\ NoDup (id <$> concat (snd <$> upsert_calls tr)).
Proof.
  intros B Hlen HB Hmax Hacc.
  destruct (upload_batch_accepted_run self collection_name dataset
              embeddings named_vector vector_name)
    as (tr & Hrun & Hcalls & _); try done.
  assert (concat (snd <$> upsert_calls tr)
          = imap (fun j => point_of named_vector vector_name (Z.of_nat j))
                 (zip dataset embeddings)) as Hall.
  { rewrite Hcalls, <- list_fmap_compose.
    rewrite <- (batch_points_concat named_vector vector_name dataset
                                    embeddings B) by done.
    f_equal. }
  assert (id <$> concat (snd <$> upsert_calls tr) = seqZ 0 (len dataset))
    as Hids.
  { rewrite Hall.
    rewrite (imap_ext _ (fun j => point_of named_vector vector_name
                                           (0 + Z.of_nat j)))
      by (intros; f_equal).
    rewrite imap_point_ids, length_zip_with. unfold len. do 2 f_equal. lia. }
  exists tr. split; [done|]. split; [done|]. split; [done|].
  rewrite Hids. apply NoDup_seqZ.
Qed.

End UploaderEdges.

(** ** More on the uploader: failures and degenerate settings *)

Section UploaderFailures.

Context {Item : Type}.

Import Uploader UploadSpec.

Implicit Types (self : DataUploader) (tr : world Item)
  (points : list (PointStruct Item)) (dataset : list Item)
  (embeddings : list Vector).

(** Without retry, a run of accepted batches leaves one upsert per batch
    in the trace and nothing else. *)
Lemma upload_loop_accepted_plain self collection_name dataset embeddings
    named_vector vector_name (ks : list nat) rest total tr :
  let B := batch_size (config self) in
  let points :=
    batch_points named_vector vector_name B dataset embeddings in
  0 < B ->
  enable_retry (config self) = false ->
  accepted_from (client self) (length (upsert_calls tr)) (length ks) ->
  upload_loop self collection_name dataset embeddings named_vector
              vector_name (((fun k => Z.of_nat k * B) <$> ks) ++ rest)
              total tr
  = upload_loop self collection_name dataset embeddings named_vector
                vector_name rest
                (total + len (concat (points <$> ks)))
                (tr ++ ((fun k => Upsert collection_name (points k)) <$> ks)).
Proof.
  intros B points HB Hretry. revert total tr.
  induction ks as [|k ks IH]; intros total tr Hacc.
  - cbn. rewrite app_nil_r. unfold len. cbn. by rewrite Z.add_0_r.
  - cbn [fmap list_fmap app].
    etrans; [apply upload_loop_step_plain; try done|].
    { rewrite <- (Hacc 0%nat) by (cbn; lia). f_equal. lia. }
    etrans; [apply IH|].
    { intros i Hi. rewrite upsert_calls_app, length_app. cbn.
      rewrite <- (Hacc (S i)) by (cbn; lia). f_equal. lia. }
    f_equal.
    + unfold len. cbn [fmap list_fmap concat]. rewrite length_app.
      change (batch_points named_vector vector_name
                (batch_size (config self)) dataset embeddings)
        with points.
      lia.
    + by rewrite <- app_assoc.
Qed.

(** X3.  Without retry, the first upsert that fails ends the upload with
    the exception of the service, whatever its class: the batches before it
    have been sent and stay sent, the failing batch has been sent once, no
    later batch is sent, and nothing waits or retries. *)
Theorem upload_without_retry_aborts self collection_name dataset embeddings
    named_vector vector_name (t : nat) (e : exn) :
  let B := batch_size (config self) in
  let points :=
    batch_points named_vector vector_name B dataset embeddings in
  length dataset = length embeddings ->
  0 < B ->
  enable_retry (config self) = false ->
  (t < batch_count (len dataset) B)%nat ->
  accepted_from (client self) 0 t ->
  upsert_reply (client self) t = Some e ->
  upload_batch self collection_name dataset embeddings named_vector
               vector_name []
  = (Raise e, (fun k => Upsert collection_name (points k)) <$> seq 0 (S t)).
Proof.
  intros B points Hlen HB Hretry Ht Hacc He.
  rewrite seq_S, fmap_app. cbn [Nat.add fmap list_fmap].
  unfold upload_batch.
  destruct (Z.eqb_spec (len dataset) (len embeddings)) as [_|Hne];
    [|unfold len in Hne; lia].
  cbn [negb]. rewrite range_batches by (unfold len; lia).
  change (Z.to_nat ((len dataset + batch_size (config self) - 1)
                    / batch_size (config self)))
    with (batch_count (len dataset) B).
  replace (batch_count (len dataset) B)
    with (t + S (batch_count (len dataset) B - S t))%nat by lia.
  rewrite seq_app, fmap_app. cbn [seq fmap list_fmap Nat.add].
  etrans; [apply upload_loop_accepted_plain; try done|].
  { by rewrite length_seq. }
  cbn [upload_loop app]. fold B.
  rewrite prepare_points_batch by done. rewrite Hretry.
  assert (forall ks : list nat,
    length (upsert_calls ((fun k => Upsert collection_name (points k))
                          <$> ks)) = length ks) as Hcount.
  { induction ks as [|k ks IH]; [done|]. cbn. f_equal. exact IH. }
  unfold bind, client_upsert.
  by rewrite Hcount, length_seq, He.
Qed.

(** X4.  Under retry, an exception of the service that is not a
    [ResponseHandlingException] is not retried: the first attempt is the
    only one, nothing waits, and the exception leaves
    [_upload_with_retry] as it came. *)
Theorem upload_with_retry_other_exception self collection_name points
    batch_num (e : exn) tr :
  0 < max_retries (config self) ->
  is_ResponseHandlingException e = false ->
  upsert_reply (client self) (length (upsert_calls tr)) = Some e ->
  _upload_with_retry self collection_name points batch_num tr
  = (Raise e,
     tr ++ [RetryEntered batch_num; Upsert collection_name points]).
Proof.
  intros Hmax Hclass He. unfold _upload_with_retry.
  unfold bind at 1. unfold enter_retry at 1.
  rewrite seqZ_cons by lia. cbn [retry_loop].
  unfold try_except, bind, client_upsert.
  rewrite upsert_calls_app, length_app. cbn [upsert_calls omap length].
  rewrite Nat.add_0_r, He, Hclass. by rewrite <- app_assoc.
Qed.

(** The whole budget spent on transient failures. *)
Lemma retry_loop_exhausted self collection_name points (j : nat)
    (attempt : Z) msg tr :
  attempt + Z.of_nat j = max_retries (config self) - 1 ->
  transient_from (client self) (length (upsert_calls tr)) j ->
  upsert_reply (client self) (length (upsert_calls tr) + j)
  = Some (ResponseHandlingException msg) ->
  retry_loop self collection_name points (seqZ attempt (Z.of_nat (S j))) tr
  = (Raise (ResponseHandlingException msg),
     tr ++ failed_attempts collection_name points
                           (initial_backoff (config self)) attempt j
        ++ [Upsert collection_name points]).
Proof.
  revert attempt tr. induction j as [|j IH]; intros attempt tr Hlast Hfail He.
  - rewrite seqZ_cons by lia. rewrite Nat.add_0_r in He.
    by rewrite (retry_loop_step_raise _ _ _ _ _ msg) by (done || lia).
  - rewrite seqZ_cons by lia.
    destruct (Hfail 0%nat ltac:(lia)) as [msg0 Hmsg0].
    rewrite Nat.add_0_r in Hmsg0.
    rewrite (retry_loop_step_wait _ _ _ _ _ msg0) by (done || lia).
    replace (Z.pred (Z.of_nat (S (S j)))) with (Z.of_nat (S j)) by lia.
    rewrite IH.
    + cbn [failed_attempts]. rewrite <- !app_assoc.
      replace (Z.succ attempt) with (attempt + 1) by lia. reflexivity.
    + lia.
    + intros i Hi. destruct (Hfail (S i) ltac:(lia)) as [m Hm].
      exists m. rewrite <- Hm. f_equal.
      rewrite upsert_calls_app, length_app. cbn. lia.
    + rewrite <- He. f_equal.
      rewrite upsert_calls_app, length_app. cbn. lia.
Qed.

(** X5.  A retry budget of [m >= 1] spent on transient failures:
    [_upload_with_retry] sends the same points [m] times, waits
    [initial_backoff * 1], ..., [initial_backoff * (m - 1)] seconds between
    the attempts (no wait after the last), and re-raises the error of the
    last attempt. *)
Theorem upload_with_retry_exhausted self collection_name points batch_num
    (j : nat) msg tr :
  max_retries (config self) = Z.of_nat (S j) ->
  transient_from (client self) (length (upsert_calls tr)) j ->
  upsert_reply (client self) (length (upsert_calls tr) + j)
  = Some (ResponseHandlingException msg) ->
  exists evs,
    _upload_with_retry self collection_name points batch_num tr
    = (Raise (ResponseHandlingException msg), tr ++ evs)
    /\ upsert_calls evs = replicate (S j) (collection_name, points)
    /\ sleep_calls evs
       = (fun a => (initial_backoff (config self) * inject_Z a)%Q)
         <$> seqZ 1 (Z.of_nat j)
    /\ last evs = Some (Upsert collection_name points).
Proof.
  intros Hmax Hfail He.
  exists (RetryEntered batch_num
          :: failed_attempts collection_name points
                             (initial_backoff (config self)) 0 j
          ++ [Upsert collection_name points]).
  split; [|split; [|split]].
  - unfold _upload_with_retry. unfold bind at 1. unfold enter_retry at 1.
    rewrite Hmax, (retry_loop_exhausted _ _ _ _ _ msg).
    + by rewrite <- app_assoc.
    + lia.
    + intros i Hi. destruct (Hfail i Hi) as [m Hm]. exists m.
      rewrite <- Hm. f_equal. rewrite upsert_calls_app, length_app. cbn. lia.
    + rewrite <- He. f_equal. rewrite upsert_calls_app, length_app. cbn. lia.
  - change (upsert_calls (RetryEntered batch_num :: ?l))
      with (upsert_calls l).
    rewrite upsert_calls_app, failed_attempts_upserts.
    change (S j) with (1 + j)%nat. rewrite Nat.add_comm, replicate_add.
    reflexivity.
  - change (sleep_calls (RetryEntered batch_num :: ?l))
      with (sleep_calls l).
    rewrite sleep_calls_app, failed_attempts_sleeps.
    cbn [sleep_calls omap]. by rewrite app_nil_r.
  - rewrite app_comm_cons. apply last_snoc.
Qed.

(** X6.  Retry enabled with a retry budget of zero or less: the attempt
    loop of [_upload_with_retry] has no turn, so every batch is reported as
    0 points uploaded; the upload returns 0 without sending a single upsert,
    whatever the corpus and the service. *)
Theorem upload_with_empty_budget_sends_nothing self collection_name dataset
    embeddings named_vector vector_name :
  let B := batch_size (config self) in
  length dataset = length embeddings ->
  0 < B ->
  enable_retry (config self) = true ->
  max_retries (config self) <= 0 ->
  exists tr,
    upload_batch self collection_name dataset embeddings named_vector
                 vector_name []
    = (Ok 0, tr)
    /\ upsert_calls tr = []
    /\ sleep_calls tr = []
    /\ retry_invocations tr
       = Z.of_nat <$> seq 0 (batch_count (len dataset) B).
Proof.
  intros B Hlen HB Hretry Hmax.
  assert (forall (ks : list nat) tr,
    upload_loop self collection_name dataset embeddings named_vector
                vector_name ((fun k => Z.of_nat k * B) <$> ks) 0 tr
    = (Ok 0, tr ++ ((fun k => RetryEntered (Z.of_nat k)) <$> ks))) as Hloop.
  { induction ks as [|k ks IH]; intros tr.
    - cbn. by rewrite app_nil_r.
    - cbn [fmap list_fmap upload_loop]. rewrite Hretry.
      unfold bind at 1. unfold _upload_with_retry.
      unfold bind at 1. unfold enter_retry at 1.
      replace (seqZ 0 (max_retries (config self))) with (@nil Z).
      + cbn [retry_loop]. unfold ret at 1. cbn [Z.add].
        rewrite IH. fold B. rewrite Z.div_mul by lia.
        by rewrite <- app_assoc.
      + unfold seqZ. by replace (Z.to_nat (max_retries (config self)))
          with 0%nat by lia. }
  eexists. split.
  - unfold upload_batch.
    destruct (Z.eqb_spec (len dataset) (len embeddings)) as [_|Hne];
      [|unfold len in Hne; lia].
    cbn [negb]. rewrite range_batches by (unfold len; lia).
    apply Hloop.
  - cbn [app].
    change (Z.to_nat ((len dataset + batch_size (config self) - 1)
                      / batch_size (config self)))
      with (batch_count (len dataset) B).
    generalize (seq 0 (batch_count (len dataset) B)). intros ks.
    split; [|split]; induction ks as [|k ks IH]; try done.
    cbn. f_equal. exact IH.
Qed.

(** X7.  A batch size of zero or less uploads nothing and calls nothing:
    with 0 the [range] of the batch loop raises its [ValueError], with a
    negative size the loop has no turn and the upload returns 0, even for a
    non-empty corpus. *)
Theorem upload_with_nonpositive_batch_size self collection_name dataset
    embeddings named_vector vector_name tr :
  length dataset = length embeddings ->
  batch_size (config self) <= 0 ->
  upload_batch self collection_name dataset embeddings named_vector
               vector_name tr
  = (if batch_size (config self) =? 0
     then Raise (ValueError "range() arg 3 must not be zero")
     else Ok 0,
     tr).
Proof.
  intros Hlen HB. unfold upload_batch, range, range_len.
  destruct (Z.eqb_spec (len dataset) (len embeddings)) as [_|Hne];
    [|unfold len in Hne; lia].
  cbn [negb].
  destruct (Z.eqb_spec (batch_size (config self)) 0) as [|Hnz]; [done|].
  destruct (Z.ltb_spec 0 (batch_size (config self))); [lia|].
  destruct (Z.ltb_spec (len dataset) 0) as [Hneg|_];
    [unfold len in Hneg; lia|].
  reflexivity.
Qed.

End UploaderFailures.

(** Seven items in batches of 3: the identifiers sent are 0..6, once
    each. *)
Lemma uploaded_points_cover_corpus_witness :
  exists tr,
    Uploader.upload_batch
      (Scenario.uploader Scenario.accepting 3 false 3 2)
      "bench" (Scenario.items 7) (Scenario.vectors 7) false "dense" []
    = (Ok 7, tr)
    /\ Uploader.id <$> concat (snd <$> Uploader.upsert_calls tr)
       = [0; 1; 2; 3; 4; 5; 6].
Proof.
  destruct (uploaded_points_cover_corpus
              (Scenario.uploader Scenario.accepting 3 false 3 2)
              "bench" (Scenario.items 7) (Scenario.vectors 7) false "dense")
    as (tr & Hrun & _ & Hids & _).
  - reflexivity.
  - cbn. lia.
  - cbn. discriminate.
  - intros i _. reflexivity.
  - exists tr. split; [exact Hrun|]. rewrite Hids. reflexivity.
Defined.

(** Five items in batches of 2, no retry, the second upsert refused: two
    upserts, then the exception. *)
Lemma upload_without_retry_aborts_witness :
  let run :=
    Uploader.upload_batch
      (Scenario.uploader
         (ScenarioEdges.failing_at 1 (OtherException "refused")) 2 false 3 2)
      "bench" (Scenario.items 5) (Scenario.vectors 5) true "dense" [] in
  run.1 = Raise (OtherException "refused")
  /\ Scenario.uploaded_ids run.2 = [[0; 1]; [2; 3]].
Proof.
  cbv zeta.
  rewrite (upload_without_retry_aborts
             (Scenario.uploader
                (ScenarioEdges.failing_at 1 (OtherException "refused"))
                2 false 3 2)
             "bench" (Scenario.items 5) (Scenario.vectors 5) true "dense"
             1 (OtherException "refused")).
  - split; reflexivity.
  - reflexivity.
  - cbn. lia.
  - reflexivity.
  - vm_compute. lia.
  - intros i Hi. assert (i = 0%nat) as -> by lia. reflexivity.
  - reflexivity.
Defined.

(** A refusal that is not a time-out, under retry with a budget of 3: one
    attempt. *)
Lemma upload_with_retry_other_exception_witness :
  Uploader._upload_with_retry (Item := nat)
    (Scenario.uploader
       (ScenarioEdges.failing_at 0 (OtherException "refused")) 5 true 3 2)
    "bench" [] 0 []
  = (Raise (OtherException "refused"),
     [Uploader.RetryEntered 0; Uploader.Upsert "bench" []]).
Proof.
  apply (upload_with_retry_other_exception
           (Scenario.uploader
              (ScenarioEdges.failing_at 0 (OtherException "refused"))
              5 true 3 2)
           "bench" [] 0 (OtherException "refused") []).
  - cbn. lia.
  - reflexivity.
  - reflexivity.
Defined.

(** A budget of 3 on a service that never answers: three upserts, waits of
    2 and 4 seconds. *)
Lemma upload_with_retry_exhausted_witness :
  exists evs,
    Uploader._upload_with_retry (Item := nat)
      (Scenario.uploader Scenario.always_failing 5 true 3 2) "bench" [] 0 []
    = (Raise (ResponseHandlingException "Timeout"), evs)
    /\ length (Uploader.upsert_calls evs) = 3%nat
    /\ Uploader.sleep_calls evs = [2%Q; 4%Q].
Proof.
  destruct (upload_with_retry_exhausted (Item := nat)
              (Scenario.uploader Scenario.always_failing 5 true 3 2)
              "bench" [] 0 2 "Timeout" [])
    as (evs & Hrun & Hups & Hsleeps & _).
  - reflexivity.
  - intros i _. by exists "Timeout".
  - reflexivity.
  - exists evs. split; [exact Hrun|]. rewrite Hups, Hsleeps. by split.
Defined.

(** Twelve items, retry enabled with a budget of 0: the upload answers 0
    and sends nothing. *)
Lemma upload_with_empty_budget_witness :
  exists tr,
    Uploader.upload_batch
      (Scenario.uploader Scenario.accepting 5 true 0 2)
      "bench" (Scenario.items 12) (Scenario.vectors 12) true "dense" []
    = (Ok 0, tr)
    /\ Uploader.upsert_calls tr = [].
Proof.
  destruct (upload_with_empty_budget_sends_nothing
              (Scenario.uploader Scenario.accepting 5 true 0 2)
              "bench" (Scenario.items 12) (Scenario.vectors 12) true "dense")
    as (tr & Hrun & Hups & _).
  - reflexivity.
  - cbn. lia.
  - reflexivity.
  - cbn. lia.
  - by exists tr.
Defined.

(** Three items with a batch size of -5: the upload answers 0 and calls
    nothing. *)
Lemma upload_with_negative_batch_size_witness :
  Uploader.upload_batch
    (Scenario.uploader Scenario.accepting (-5) false 3 2)
    "bench" (Scenario.items 3) (Scenario.vectors 3) true "dense" []
  = (Ok 0, []).
Proof.
  apply (upload_with_nonpositive_batch_size
           (Scenario.uploader Scenario.accepting (-5) false 3 2)
           "bench" (Scenario.items 3) (Scenario.vectors 3) true "dense" []).
  - reflexivity.
  - cbn. lia.
Defined.

(** ** More on the benchmark: the sweeps, failures, bounds *)

Section BenchmarkEdges.

Import Benchmark BenchSpec BenchEdges Sweep.

Variable clock : nat -> Q.

Implicit Types (self : PerformanceBenchmark) (tr : world).





End BenchmarkEdges.


(** ** Bounds on the NumPy reductions *)

Section NpBounds.

Implicit Types (l s : list Q) (lo hi : Q).

Lemma sum_bounds l lo hi :
  Forall (fun x => (lo <= x)%Q /\ (x <= hi)%Q) l ->
  (inject_Z (len l) * lo <= Np.sum l)%Q
  /\ (Np.sum l <= inject_Z (len l) * hi)%Q.
Proof.
  induction 1 as [|x l [Hlo Hhi] _ [IHlo IHhi]].
  - unfold len, Np.sum. cbn [length foldr].
    change (inject_Z (Z.of_nat 0)) with 0%Q. split; lra.
  - unfold len in *. cbn [length Np.sum foldr].
    rewrite Nat2Z.inj_succ, <- Z.add_1_r, inject_Z_plus.
    change (inject_Z 1) with 1%Q.
    fold (Np.sum l). set (n := inject_Z (Z.of_nat (length l))) in *.
    split; nra.
Qed.

(** The mean of a non-empty sample lies between any two bounds of its
    values. *)
Lemma mean_bounds l lo hi :
  l <> [] ->
  Forall (fun x => (lo <= x)%Q /\ (x <= hi)%Q) l ->
  (lo <= Np.mean l)%Q /\ (Np.mean l <= hi)%Q.
Proof.
  intros Hne Hall. destruct (sum_bounds l lo hi Hall) as [Hlo Hhi].
  assert (0 < inject_Z (len l))%Q as Hpos.
  { change 0%Q with (inject_Z 0). rewrite <- Zlt_Qlt.
    unfold len. destruct l; [done|cbn; lia]. }
  unfold Np.mean. split.
  - apply Qle_shift_div_l; [done|]. by rewrite Qmult_comm.
  - apply Qle_shift_div_r; [done|]. by rewrite Qmult_comm.
Qed.

Lemma nth_bounds s lo hi (i : nat) :
  Forall (fun x => (lo <= x)%Q /\ (x <= hi)%Q) s ->
  (i < length s)%nat ->
  (lo <= nth i s 0)%Q /\ (nth i s 0 <= hi)%Q.
Proof.
  intros Hall Hi. rewrite Forall_forall in Hall.
  apply Hall, list_elem_of_In, nth_In. lia.
Qed.

(** The interpolated value lies between any two bounds of the sample. *)
Lemma interpolate_bounds s lo hi (vi : Q) :
  Forall (fun x => (lo <= x)%Q /\ (x <= hi)%Q) s ->
  (0 <= vi)%Q -> (vi <= inject_Z (len s - 1))%Q ->
  (lo <= Np.interpolate s vi)%Q /\ (Np.interpolate s vi <= hi)%Q.
Proof.
  intros Hall H0 Hn. unfold Np.interpolate.
  pose proof (Qfloor_le vi) as Hfl. pose proof (Qlt_floor vi) as Hce.
  assert (0 <= Qfloor vi) as Hlo.
  { rewrite <- (Qfloor_Z 0). by apply Qfloor_resp_le. }
  assert (Qfloor vi <= len s - 1) as Hhi.
  { rewrite <- (Qfloor_Z (len s - 1)). by apply Qfloor_resp_le. }
  rewrite inject_Z_plus in Hce. change (inject_Z 1) with 1%Q in Hce.
  destruct (nth_bounds s lo hi (Z.to_nat (Qfloor vi)) Hall) as [Ha1 Ha2].
  { unfold len in Hhi. lia. }
  destruct (nth_bounds s lo hi
              (Z.to_nat (Z.min (Qfloor vi + 1) (len s - 1))) Hall)
    as [Hb1 Hb2].
  { unfold len in *. lia. }
  set (a := nth (Z.to_nat (Qfloor vi)) s 0%Q) in *.
  set (b := nth (Z.to_nat (Z.min (Qfloor vi + 1) (len s - 1))) s 0%Q) in *.
  set (fl := inject_Z (Qfloor vi)) in *.
  split; nra.
Qed.

(** A percentile of a non-empty sample lies between any two bounds of its
    values. *)
Lemma percentile_bounds l lo hi (q : Q) :
  l <> [] ->
  Forall (fun x => (lo <= x)%Q /\ (x <= hi)%Q) l ->
  (0 <= q)%Q -> (q <= 100)%Q ->
  (lo <= Np.percentile l q)%Q /\ (Np.percentile l q <= hi)%Q.
Proof.
  intros Hne Hall H0 H100. unfold Np.percentile.
  assert (0 <= inject_Z (len (Np.sort l) - 1))%Q as Hn.
  { change 0%Q with (inject_Z 0). rewrite <- Zle_Qle.
    unfold len. rewrite length_sort. destruct l; [done|cbn; lia]. }
  set (m := inject_Z (len (Np.sort l) - 1)) in *.
  unfold Qdiv. change (/ 100)%Q with (1 # 100)%Q.
  apply interpolate_bounds.
  - by rewrite sort_perm.
  - nra.
  - fold m. nra.
Qed.

End NpBounds.

(** ** More on the benchmark: accuracy sweep, failures, bounds *)

Section BenchmarkAccuracy.

Import Benchmark BenchSpec BenchEdges.

Implicit Types (self : PerformanceBenchmark) (tr : world).

Lemma accuracy_score_unit (baseline_ids quantized_ids : gset Z) :
  unit_interval (accuracy_score baseline_ids quantized_ids).
Proof.
  unfold unit_interval, accuracy_score.
  case_bool_decide as Hempty; [split; [apply Qle_refl|done]|].
  assert (0 < inject_Z (Z.of_nat (size baseline_ids)))%Q as Hpos.
  { change 0%Q with (inject_Z 0). rewrite <- Zlt_Qlt.
    assert (size baseline_ids <> 0%nat); [|lia].
    intros Hsize. apply Hempty. by apply leibniz_equiv, size_empty_inv. }
  split.
  - apply Qle_shift_div_l; [done|]. rewrite Qmult_0_l.
    change 0%Q with (inject_Z 0). rewrite <- Zle_Qle. lia.
  - apply Qle_shift_div_r; [done|]. rewrite Qmult_1_l.
    rewrite <- Zle_Qle. apply inj_le, subseteq_size, intersection_subseteq_l.
Qed.

(** X10.  For a non-empty baseline, the accuracy score is 1 exactly when
    every baseline identifier is among the candidate's, and 0 exactly when
    the two sets share no identifier. *)
Theorem accuracy_score_extremes (baseline_ids quantized_ids : gset Z) :
  baseline_ids <> ∅ ->
  ((accuracy_score baseline_ids quantized_ids == 1)%Q
   <-> baseline_ids ⊆ quantized_ids)
  /\ ((accuracy_score baseline_ids quantized_ids == 0)%Q
      <-> baseline_ids ∩ quantized_ids = ∅).
Proof.
  intros Hne. unfold accuracy_score. rewrite bool_decide_false by done.
  assert (size baseline_ids <> 0%nat) as Hsize.
  { intros Hsize. apply Hne. by apply leibniz_equiv, size_empty_inv. }
  assert (~ (inject_Z (Z.of_nat (size baseline_ids)) == 0)%Q) as Hnz.
  { change 0%Q with (inject_Z 0). rewrite inject_Z_injective. lia. }
  pose proof (subseteq_size (baseline_ids ∩ quantized_ids) baseline_ids
                (intersection_subseteq_l _ _)) as Hle.
  split; split.
  - intros Hone.
    assert (inject_Z (Z.of_nat (size (baseline_ids ∩ quantized_ids)))
            == inject_Z (Z.of_nat (size baseline_ids)))%Q as Heq.
    { rewrite <- (Qmult_div_r (inject_Z (Z.of_nat (size (baseline_ids
                                                          ∩ quantized_ids))))
                              (inject_Z (Z.of_nat (size baseline_ids))))
        by done.
      rewrite Hone. apply Qmult_1_r. }
    rewrite inject_Z_injective in Heq.
    assert (baseline_ids ∩ quantized_ids = baseline_ids) as Hsame.
    { apply set_subseteq_size_eq; [apply intersection_subseteq_l|lia]. }
    rewrite <- Hsame. apply intersection_subseteq_r.
  - intros Hsub.
    replace (baseline_ids ∩ quantized_ids) with baseline_ids.
    + unfold Qdiv. by apply Qmult_inv_r.
    + symmetry. by apply subseteq_intersection_1_L.
  - intros Hzero.
    assert (inject_Z (Z.of_nat (size (baseline_ids ∩ quantized_ids)))
            == 0)%Q as Heq.
    { rewrite <- (Qmult_div_r (inject_Z (Z.of_nat (size (baseline_ids
                                                          ∩ quantized_ids))))
                              (inject_Z (Z.of_nat (size baseline_ids))))
        by done.
      rewrite Hzero. apply Qmult_0_r. }
    change 0%Q with (inject_Z 0) in Heq. rewrite inject_Z_injective in Heq.
    apply leibniz_equiv, size_empty_inv. lia.
  - intros ->. rewrite size_empty. reflexivity.
Qed.

Lemma accuracy_loop_run self original_collection quantized_collection
    using_original factor queries accuracy_scores tr :
  answering (client self) ->
  exists scores,
    accuracy_loop self original_collection quantized_collection
                  using_original factor queries accuracy_scores tr
    = (Ok (accuracy_scores ++ scores),
       tr ++ accuracy_events self original_collection quantized_collection
                             using_original factor queries)
    /\ length scores = length queries
    /\ Forall unit_interval scores.
Proof.
  intros Hans. revert accuracy_scores tr.
  induction queries as [|text queries IH]; intros accuracy_scores tr.
  - exists []. cbn. by rewrite !app_nil_r.
  - cbn [accuracy_loop]. unfold bind at 1. unfold client_query_points at 1.
    destruct (Hans (length (query_calls tr))
                   (baseline_query self original_collection using_original
                                   text)) as [baseline Hbaseline].
    unfold baseline_query in Hbaseline. rewrite Hbaseline.
    unfold bind at 1. unfold client_query_points at 1.
    match goal with
    | |- context [query_reply _ ?k ?p] =>
        destruct (Hans k p) as [quantized Hquantized]
    end.
    rewrite Hquantized.
    edestruct IH as (scores & -> & Hlen & Hunit).
    exists (accuracy_score (list_to_set baseline) (list_to_set quantized)
            :: scores).
    split; [|split].
    + rewrite <- !app_assoc. reflexivity.
    + cbn. by rewrite Hlen.
    + constructor; [apply accuracy_score_unit|done].
Qed.

Lemma dict_set_Forall (P : Q -> Prop) results key value :
  Forall (fun kv => P kv.2) results -> P value ->
  Forall (fun kv : Q * Q => P kv.2) (dict_set results key value).
Proof.
  intros Hall Hvalue. induction Hall as [|[k v] results Hkv Hall IH]; cbn.
  - by constructor.
  - destruct (Qeq_bool k key); constructor; done.
Qed.

Lemma retention_loop_run self original_collection quantized_collection
    using_original queries factors results tr :
  answering (client self) ->
  queries <> [] ->
  Forall (fun kv => unit_interval kv.2) results ->
  exists results',
    retention_loop self original_collection quantized_collection
                   using_original queries factors results tr
    = (Ok results',
       tr ++ flat_map (fun factor =>
                         accuracy_events self original_collection
                           quantized_collection using_original factor
                           queries)
                      factors)
    /\ Forall (fun kv => unit_interval kv.2) results'.
Proof.
  intros Hans Hne. revert results tr.
  induction factors as [|factor factors IH]; intros results tr Hall.
  - exists results. cbn. by rewrite app_nil_r.
  - cbn [retention_loop flat_map]. unfold bind at 1.
    destruct (accuracy_loop_run self original_collection
                quantized_collection using_original factor queries [] tr
                Hans) as (scores & -> & Hlen & Hunit).
    cbn [app].
    edestruct (IH (dict_set results factor (Np.mean scores)))
      as (results' & -> & Hall').
    + apply dict_set_Forall; [done|].
      apply mean_bounds; [|done].
      destruct scores; [|done]. destruct queries; done.
    + exists results'. split; [|done]. by rewrite <- app_assoc.
Qed.

Lemma query_calls_accuracy self original_collection quantized_collection
    using_original queries factors :
  let tr :=
    flat_map (fun factor =>
                accuracy_events self original_collection
                  quantized_collection using_original factor queries)
             factors in
  length (query_calls tr) = (2 * (length factors * length queries))%nat
  /\ time_reads tr = 0%nat.
Proof.
  cbv zeta. induction factors as [|factor factors [IHq IHt]]; [done|].
  cbn [flat_map]. rewrite query_calls_app, length_app, time_reads_app.
  rewrite IHq, IHt.
  assert (length (query_calls
                    (accuracy_events self original_collection
                       quantized_collection using_original factor queries))
          = (2 * length queries)%nat
          /\ time_reads
               (accuracy_events self original_collection
                  quantized_collection using_original factor queries)
             = 0%nat) as [-> ->].
  { clear. induction queries as [|text queries [IHq IHt]]; [done|].
    change (accuracy_events self original_collection quantized_collection
                            using_original factor (text :: queries))
      with ([QueryPoints (baseline_query self original_collection
                                         using_original text);
             QueryPoints (quantized_query self quantized_collection factor
                                          text)]
            ++ accuracy_events self original_collection
                               quantized_collection using_original factor
                               queries).
    rewrite query_calls_app, length_app, time_reads_app, IHq, IHt.
    split; cbn; lia. }
  cbn [length]. lia.
Qed.

(** X9.  The accuracy sweep on a service that answers, over a non-empty
    list of test queries: for each factor and each test query it sends the
    baseline query (with the vector name given, no search parameters) and
    then the quantized query (rescoring on, oversampling of the factor), in
    all [2 * |factors| * N] queries, none of them timed; and every
    "avg_accuracy" of the result lies between 0 and 1. *)
Theorem measure_accuracy_retention_run self original_collection
    quantized_collection test_queries factors using_original :
  answering (client self) ->
  queries_of self test_queries <> [] ->
  let queries := queries_of self test_queries in
  let swept := default (oversampling_factors (config self)) factors in
  exists results tr,
    measure_accuracy_retention self original_collection
      quantized_collection test_queries factors using_original []
    = (Ok results, tr)
    /\ tr = flat_map (fun factor =>
                        accuracy_events self original_collection
                          quantized_collection using_original factor
                          queries)
                     swept
    /\ length (query_calls tr) = (2 * (length swept * length queries))%nat
    /\ time_reads tr = 0%nat
    /\ Forall (fun kv => unit_interval kv.2) results.
Proof.
  intros Hans Hne queries swept. unfold measure_accuracy_retention.
  change (match test_queries with
          | Some qs => qs
          | None => Config.test_queries (config self)
          end) with queries.
  change (match factors with
          | Some fs => fs
          | None => oversampling_factors (config self)
          end) with swept.
  destruct (retention_loop_run self original_collection
              quantized_collection using_original queries swept [] []
              Hans Hne) as (results & Hrun & Hall); [constructor|].
  exists results. eexists. split; [exact Hrun|]. cbn [app].
  split; [done|].
  destruct (query_calls_accuracy self original_collection
              quantized_collection using_original queries swept)
    as [Hq Ht].
  by repeat split.
Qed.

End BenchmarkAccuracy.

(** Baseline {1,2,3} against a candidate that holds all of it. *)
Lemma accuracy_score_extremes_witness :
  (Benchmark.accuracy_score {[1; 2; 3]}%Z {[1; 2; 3; 9]}%Z == 1)%Q.
Proof.
  apply (accuracy_score_extremes {[1; 2; 3]} {[1; 2; 3; 9]}).
  - intros Heq. apply (f_equal size) in Heq. vm_compute in Heq. discriminate.
  - apply (bool_decide_unpack _). vm_compute. exact I.
Defined.

(** The accuracy sweep over the factors 2 and 3 on two test queries: 8
    queries. *)
Lemma measure_accuracy_retention_witness :
  exists results tr,
    Benchmark.measure_accuracy_retention (BenchSpec.bench true [])
      "original" "quantized" (Some ["q1"; "q2"]) (Some [2; 3]%Q) "dense" []
    = (Ok results, tr)
    /\ length (Benchmark.query_calls tr) = 8%nat
    /\ Forall (fun kv => BenchEdges.unit_interval kv.2) results.
Proof.
  destruct (measure_accuracy_retention_run
              (BenchSpec.bench true []) "original" "quantized"
              (Some ["q1"; "q2"]) (Some [2; 3]%Q) "dense")
    as (results & tr & Hrun & _ & Hcount & _ & Hunit).
  - intros k params. by exists [].
  - discriminate.
  - by exists results, tr.
Defined.

(** ** More on the latency run *)

Section LatencyEdges.

Import Benchmark BenchSpec BenchEdges.

Variable clock : nat -> Q.

Implicit Types (self : PerformanceBenchmark) (tr : world).

Lemma measure_loop_empty_using self collection_name search_params queries
    latencies tr :
  measure_loop clock self collection_name (Some "") search_params queries
               latencies tr
  = measure_loop clock self collection_name None search_params queries
                 latencies tr.
Proof.
  revert latencies tr. induction queries as [|text queries IH];
    intros latencies tr; [done|].
  cbn [measure_loop]. unfold bind.
  destruct (time_time clock tr) as [[start_time|e] tr1]; [|done].
  change (truthy_str (Some "")) with false. cbn [truthy_str].
  destruct (client_query_points _ _ tr1) as [[points|e] tr2]; [|done].
  destruct (time_time clock tr2) as [[end_time|e] tr3]; [|done].
  apply IH.
Qed.

(** X11.  A vector name given as the empty string counts as none: the
    latency run is the same, event for event and metric for metric, as the
    run with no vector name, whatever the service answers. *)
Theorem latency_run_empty_using self collection_name test_queries
    search_params tr :
  measure_search_latency clock self collection_name test_queries (Some "")
                         search_params tr
  = measure_search_latency clock self collection_name test_queries None
                           search_params tr.
Proof.
  unfold measure_search_latency, bind, warmup.
  destruct (warmup_enabled (config self)); cbn [negb].
  - change (truthy_str (Some "")) with false. cbn [truthy_str].
    unfold bind.
    destruct (client_query_points _ _ tr) as [[points|e] tr1]; [|done].
    unfold ret. by rewrite measure_loop_empty_using.
  - unfold ret. by rewrite measure_loop_empty_using.
Qed.

(** The measuring loop over a first part of the test queries that the
    service answers. *)
Lemma measure_loop_answered self collection_name using_ search_params
    (answered rest : list string) latencies tr :
  (forall i params, (i < length answered)%nat ->
     exists points,
       query_reply (client self) (length (query_calls tr) + i) params
       = inr points) ->
  measure_loop clock self collection_name using_ search_params
               (answered ++ rest) latencies tr
  = measure_loop clock self collection_name using_ search_params rest
      (latencies
       ++ measured_latencies clock (time_reads tr) (length answered))
      (tr ++ measuring_events self collection_name using_ search_params
                              answered).
Proof.
  revert latencies tr.
  induction answered as [|text answered IH]; intros latencies tr Hans.
  - cbn. by rewrite !app_nil_r.
  - cbn [app measure_loop length]. rewrite measured_latencies_S.
    unfold bind at 1. unfold time_time at 1.
    unfold bind at 1. unfold client_query_points at 1.
    destruct (Hans 0%nat
                (latency_query self collection_name using_ search_params
                               text) ltac:(cbn; lia)) as [points Hpoints].
    unfold latency_query in Hpoints. rewrite Nat.add_0_r in Hpoints.
    assert (length (query_calls (tr ++ [TimeRead]))
            = length (query_calls tr)) as ->.
    { rewrite query_calls_app, length_app. cbn. lia. }
    rewrite Hpoints.
    unfold bind at 1. unfold time_time at 1.
    rewrite IH.
    + f_equal.
      * rewrite <- app_assoc. cbn [app]. do 3 f_equal.
        -- do 3 f_equal. rewrite !time_reads_app. cbn. lia.
        -- f_equal. rewrite !time_reads_app. cbn. lia.
      * cbn [measuring_events flat_map]. rewrite <- !app_assoc. reflexivity.
    + intros i params Hi.
      destruct (Hans (S i) params ltac:(cbn; lia)) as [pts Hpts].
      exists pts. rewrite <- Hpts. f_equal.
      rewrite !query_calls_app, !length_app. cbn. lia.
Qed.

(** X12.  A latency run whose service raises on one of the test queries:
    the run ends with that exception and returns no metrics; the queries
    before it have been sent and timed, the failing query has been sent
    after one reading of the clock, and the queries after it are never
    sent. *)
Theorem latency_run_aborts_on_failure self collection_name test_queries
    using_ search_params (answered rest : list string) (text : string)
    (e : exn) :
  let warm := if warmup_enabled (config self) then 1%nat else 0%nat in
  queries_of self test_queries = answered ++ text :: rest ->
  answering_first (client self) (warm + length answered) ->
  query_reply (client self) (warm + length answered)
              (latency_query self collection_name using_ search_params text)
  = inl e ->
  measure_search_latency clock self collection_name test_queries using_
                         search_params []
  = (Raise e,
     warmup_events self collection_name using_
     ++ measuring_events self collection_name using_ search_params answered
     ++ [TimeRead;
         QueryPoints (latency_query self collection_name using_
                                    search_params text)]).
Proof.
  intros warm Hqueries Hans He. unfold measure_search_latency.
  change (match test_queries with
          | Some qs => qs
          | None => Config.test_queries (config self)
          end) with (queries_of self test_queries).
  rewrite Hqueries.
  assert (warmup self collection_name using_ []
          = (Ok tt, warmup_events self collection_name using_)
          /\ length (query_calls (warmup_events self collection_name using_))
             = warm) as [Hwarm Hcount].
  { unfold warmup, warmup_events. subst warm.
    destruct (warmup_enabled (config self)); cbn [negb]; [|done].
    unfold bind, client_query_points.
    change (length (query_calls [])) with 0%nat.
    destruct (Hans 0%nat
                (latency_query self collection_name using_ None
                               "warmup query") ltac:(lia)) as [pts Hpts].
    unfold latency_query in *. by rewrite Hpts. }
  unfold bind at 1. rewrite Hwarm.
  unfold bind at 1. rewrite measure_loop_answered.
  - cbn [measure_loop]. unfold bind at 1. unfold time_time at 1.
    unfold bind at 1. unfold client_query_points at 1.
    assert (length (query_calls
                      ((warmup_events self collection_name using_
                        ++ measuring_events self collection_name using_
                                            search_params answered)
                       ++ [TimeRead]))
            = (warm + length answered)%nat) as ->.
    { rewrite !query_calls_app, !length_app, Hcount,
        measuring_events_queries, length_fmap. cbn. lia. }
    unfold latency_query in He. rewrite He.
    by rewrite <- !app_assoc.
  - intros i params Hi. rewrite Hcount. apply Hans. lia.
Qed.


(** X14.  A latency run on a service that answers, over at least one test
    query, read off a clock that never goes back: the average and the six
    percentiles are not negative, and none exceeds the time between the
    first and the last reading of the clock, in milliseconds. *)
Theorem latency_run_metrics_bounded self collection_name test_queries
    using_ search_params :
  answering (client self) ->
  queries_of self test_queries <> [] ->
  (forall i j, (i <= j)%nat -> (clock i <= clock j)%Q) ->
  let N := length (queries_of self test_queries) in
  exists metrics tr,
    measure_search_latency clock self collection_name test_queries using_
                           search_params []
    = (Ok metrics, tr)
    /\ Forall (fun x =>
                 (0 <= x)%Q
                 /\ (x <= (clock (2 * N - 1)%nat - clock 0%nat) * 1000)%Q)
              [avg metrics; p50 metrics; p90 metrics; p95 metrics;
               p99 metrics; p99_5 metrics; p99_9 metrics].
Proof.
  intros Hans Hne Hclock N.
  rewrite (measure_search_latency_run clock) by done.
  do 2 eexists. split; [reflexivity|].
  change (time_reads []) with 0%nat. fold N.
  assert (N <> 0%nat) as HN.
  { subst N. by destruct (queries_of self test_queries). }
  set (total := ((clock (2 * N - 1)%nat - clock 0%nat) * 1000)%Q).
  assert (Forall (fun x => (0 <= x)%Q /\ (x <= total)%Q)
                 (measured_latencies clock 0 N)) as Hall.
  { unfold measured_latencies. apply Forall_fmap, Forall_forall.
    intros i Hi%elem_of_seq. cbn [compose]. subst total.
    pose proof (Hclock (0 + 2 * i)%nat (0 + 2 * i + 1)%nat ltac:(lia)).
    pose proof (Hclock 0%nat (0 + 2 * i)%nat ltac:(lia)).
    pose proof (Hclock (0 + 2 * i + 1)%nat (2 * N - 1)%nat ltac:(lia)).
    split; lra. }
  assert (measured_latencies clock 0 N <> []) as Hsome.
  { unfold measured_latencies. destruct N; [done|]. by cbn. }
  cbn [_calculate_metrics avg p50 p90 p95 p99 p99_5 p99_9].
  repeat (apply List.Forall_cons;
          [first [ by apply mean_bounds
                 | apply (percentile_bounds _ 0 total);
                   [done|done|lra|lra] ]|]).
  apply List.Forall_nil.
Qed.

End LatencyEdges.

(** Warmup enabled, three test queries, the service down at its third
    query: the run ends at the second test query. *)
Lemma latency_run_aborts_on_failure_witness :
  let run :=
    Benchmark.measure_search_latency BenchSpec.ticking_clock
      (BenchEdges.bench_on
         (BenchEdges.failing_query 2 (OtherException "down")) true)
      "bench" (Some ["q1"; "q2"; "q3"]) (Some "dense") None [] in
  run.1 = Raise (OtherException "down")
  /\ length (Benchmark.query_calls run.2) = 3%nat.
Proof.
  cbv zeta.
  rewrite (latency_run_aborts_on_failure BenchSpec.ticking_clock
             (BenchEdges.bench_on
                (BenchEdges.failing_query 2 (OtherException "down")) true)
             "bench" (Some ["q1"; "q2"; "q3"]) (Some "dense") None
             ["q1"] ["q3"] "q2" (OtherException "down")).
  - split; reflexivity.
  - reflexivity.
  - intros k params Hk. exists [].
    destruct k as [|[|k]]; [reflexivity|reflexivity|cbn in Hk; lia].
  - reflexivity.
Defined.


(** Two test queries on the ticking clock: metrics between 0 and 3000
    ms. *)
Lemma latency_run_metrics_bounded_witness :
  exists metrics tr,
    Benchmark.measure_search_latency BenchSpec.ticking_clock
      (BenchSpec.bench true []) "bench" (Some ["q1"; "q2"]) None None []
    = (Ok metrics, tr)
    /\ (0 <= Benchmark.p95 metrics)%Q
    /\ (Benchmark.p95 metrics <= 3000)%Q.
Proof.
  destruct (latency_run_metrics_bounded BenchSpec.ticking_clock
              (BenchSpec.bench true []) "bench" (Some ["q1"; "q2"]) None
              None)
    as (metrics & tr & Hrun & Hall).
  - intros k params. by exists [].
  - discriminate.
  - intros i j Hij. unfold BenchSpec.ticking_clock.
    rewrite <- Zle_Qle. lia.
  - exists metrics, tr. split; [exact Hrun|].
    apply Forall_cons in Hall as [_ Hall].
    apply Forall_cons in Hall as [_ Hall].
    apply Forall_cons in Hall as [_ Hall].
    apply Forall_cons in Hall as [[Hlo Hhi] _].
    split; [exact Hlo|]. exact Hhi.
Defined.

(** ** More on the collection manager *)

Section ManagerEdges.

Import Manager ManagerSpec.

Implicit Types (self : QdrantCollectionManager) (w : world).

(** X15.  [delete_collection] always succeeds.  It asks the service
    whether the collection exists and sends the deletion only if it does;
    afterwards the service does not hold that name, and every other
    collection is as it was. *)
Theorem delete_collection_effect self collection_name w :
  exists w',
    delete_collection self collection_name w = (Ok tt, w')
    /\ collections w' !! collection_name = None
    /\ (forall other, other <> collection_name ->
          collections w' !! other = collections w !! other)
    /\ trace w'
       = trace w
         ++ CollectionExists collection_name
            :: (if bool_decide (is_Some (collections w !! collection_name))
                then [DeleteCollection collection_name] else []).
Proof.
  eexists. split; [apply delete_collection_run|].
  cbn [collections trace]. split; [|split].
  - apply lookup_delete_eq.
  - intros other Hother. by apply lookup_delete_ne.
  - reflexivity.
Qed.

(** X16.  Deleting a collection a second time changes nothing and sends no
    deletion: the second call only asks whether the collection exists. *)
Theorem delete_collection_twice self collection_name w :
  exists w1 w2,
    delete_collection self collection_name w = (Ok tt, w1)
    /\ delete_collection self collection_name w1 = (Ok tt, w2)
    /\ collections w2 = collections w1
    /\ trace w2 = trace w1 ++ [CollectionExists collection_name].
Proof.
  do 2 eexists. split; [apply delete_collection_run|].
  split; [apply delete_collection_run|].
  cbn [collections trace]. split.
  - apply delete_id, lookup_delete_eq.
  - unfold delete_if_exists_events at 2. cbn [collections].
    rewrite bool_decide_false; [done|].
    rewrite lookup_delete_eq. by intros [? ?].
Qed.

(** X17.  Recreating a collection of a kind that can be created ("hybrid",
    "quantized" with a quantization, anything else as standard) succeeds
    whether or not the name was held: afterwards the service holds the name
    with the layout of the kind, every other collection is as it was, and
    the creation is the last call sent. *)
Theorem recreate_collection_replaces self collection_name collection_type
    quantization_config params w :
  params_by_kind self collection_type quantization_config = Some params ->
  exists w',
    recreate_collection self collection_name collection_type
                        quantization_config w
    = (Ok tt, w')
    /\ collections w' !! collection_name = Some params
    /\ (forall other, other <> collection_name ->
          collections w' !! other = collections w !! other)
    /\ last (trace w') = Some (CreateCollection collection_name params).
Proof.
  intros Hparams. eexists.
  split; [by apply recreate_collection_creates|].
  cbn [collections trace]. split; [|split].
  - apply lookup_insert_eq.
  - intros other Hother. by apply lookup_insert_ne.
  - rewrite !app_assoc. apply last_snoc.
Qed.

(** X18.  Recreating the same collection twice in a row leaves the service
    as after the first time; the second run finds the collection, deletes
    it and creates it again. *)
Theorem recreate_collection_twice self collection_name collection_type
    quantization_config params w :
  params_by_kind self collection_type quantization_config = Some params ->
  exists w1 w2,
    recreate_collection self collection_name collection_type
                        quantization_config w
    = (Ok tt, w1)
    /\ recreate_collection self collection_name collection_type
                           quantization_config w1
       = (Ok tt, w2)
    /\ collections w2 = collections w1
    /\ trace w2
       = trace w1 ++ [CollectionExists collection_name;
                      DeleteCollection collection_name;
                      CreateCollection collection_name params].
Proof.
  intros Hparams. do 2 eexists.
  split; [by apply recreate_collection_creates|].
  split; [by apply recreate_collection_creates|].
  cbn [collections trace]. split.
  - apply insert_insert_eq.
  - unfold delete_if_exists_events at 2. cbn [collections].
    rewrite bool_decide_true; [done|].
    rewrite lookup_insert_eq. by eexists.
Qed.

End ManagerEdges.

Section ManagerInfoFacts.

Import ManagerInfo.

(** X19.  [get_collection_info] on a name the service does not hold fails
    with the [ValueError] that names the collection, after the existence
    check alone; on a name it holds it reads the collection once and
    returns its counts and status under that name.  Neither changes what
    the service holds. *)
Theorem get_collection_info_run (collection_name : string) (w : world) :
  get_collection_info collection_name w
  = match held w !! collection_name with
    | None =>
        (Raise (ValueError ("Collection '" +:+ collection_name
                            +:+ "' does not exist")),
         {| trace := trace w ++ [CollectionExists collection_name];
            held := held w |})
    | Some info =>
        (Ok {| info_name := collection_name;
               info_vectors_count := vectors_count info;
               info_points_count := points_count info;
               info_status := status info |},
         {| trace := trace w ++ [CollectionExists collection_name;
                                 GetCollection collection_name];
            held := held w |})
    end.
Proof.
  unfold get_collection_info, bind, client_collection_exists,
    client_get_collection.
  destruct (held w !! collection_name) as [info|] eqn:Hheld.
  - rewrite bool_decide_true by (by eexists). cbn [negb held trace].
    rewrite Hheld. unfold ret. by rewrite <- app_assoc.
  - rewrite bool_decide_false by (by intros [? ?]). reflexivity.
Qed.

End ManagerInfoFacts.

(** ** The embedding service *)

Section EmbeddingFacts.

Import Benchmark Embeddings.

Lemma encode_loop_chunks (self : EmbeddingService) (texts : list string)
    (B : Z) (ks : list nat) (embeddings : list Vector) :
  0 < B ->
  encode_loop self texts B ((fun k : nat => Z.of_nat k * B) <$> ks)
              embeddings
  = embeddings
    ++ (encode_text self
        <$> concat ((fun k => take (Z.to_nat B)
                                   (drop (k * Z.to_nat B) texts)) <$> ks)).
Proof.
  intros HB. revert embeddings.
  induction ks as [|k ks IH]; intros embeddings.
  - cbn. by rewrite app_nil_r.
  - cbn [fmap list_fmap encode_loop concat]. rewrite IH.
    rewrite slice_take_drop by lia.
    replace (Z.to_nat (Z.of_nat k * B)) with (k * Z.to_nat B)%nat by lia.
    by rewrite fmap_app, app_assoc.
Qed.

Lemma encode_batch_map (self : EmbeddingService) (texts : list string) :
  encode_batch self texts = encode_text self <$> texts.
Proof.
  unfold encode_batch.
  rewrite range_batches by (unfold len; lia).
  rewrite encode_loop_chunks by lia. cbn [app]. f_equal.
  apply chunks_concat.
  pose proof (Z.mod_pos_bound (len texts + 1000 - 1) 1000 ltac:(lia)).
  pose proof (Z.div_mod (len texts + 1000 - 1) 1000 ltac:(lia)).
  unfold len in *. lia.
Qed.

(** X20.  [encode_batch] returns one vector per text, in the order of the
    texts: the vector at each position is the one [encode_text] gives the
    text at that position; the sub-batches of 1000 do not show in the
    result. *)
Theorem encode_batch_pointwise (self : EmbeddingService)
    (texts : list string) :
  length (encode_batch self texts) = length texts
  /\ forall i : nat,
       encode_batch self texts !! i = encode_text self <$> texts !! i.
Proof.
  rewrite encode_batch_map. split; [apply length_fmap|].
  intros i. apply list_lookup_fmap.
Qed.

(** X21.  [encode_dataset] returns one vector per item, in order: the
    vector of the title and the description joined by a space (only the
    description when the fields are not combined), a missing field
    counting as the empty text. *)
Theorem encode_dataset_pointwise (self : EmbeddingService)
    (dataset : list Item) (text_field title_field : string)
    (combine_fields : bool) :
  encode_dataset self dataset text_field title_field combine_fields
  = (fun item =>
       encode_text self
         (if combine_fields
          then item_get item title_field +:+ " " +:+ item_get item text_field
          else item_get item text_field))
    <$> dataset
  /\ length (encode_dataset self dataset text_field title_field
                            combine_fields)
     = length dataset.
Proof.
  unfold encode_dataset. rewrite encode_batch_map.
  destruct combine_fields; rewrite <- list_fmap_compose;
    (split; [done|by rewrite length_fmap]).
Qed.

End EmbeddingFacts.

(** ** Encoding a corpus and uploading it *)

Section EncodeThenUpload.

Import Benchmark Embeddings Uploader UploadSpec.

(** X22.  The corpus encoded by [encode_dataset] and uploaded with it, as
    the upload command does (named vector "dense"), on a service that
    accepts the upserts: the size check never fails, the upload returns the
    size of the corpus, and item [i] is sent exactly once, under the
    identifier [i], with the vector of its own title and description under
    the name "dense". *)
Theorem encode_then_upload (service : EmbeddingService)
    (self : DataUploader) (collection_name : string)
    (dataset : list Embeddings.Item) :
  let B := batch_size (Uploader.config self) in
  let embeddings :=
    encode_dataset service dataset "description" "title" true in
  0 < B ->
  (enable_retry (Uploader.config self) = true ->
   0 < max_retries (Uploader.config self)) ->
  accepted_from (Uploader.client self) 0 (batch_count (len dataset) B) ->
  exists tr,
    upload_batch self collection_name dataset embeddings true "dense" []
    = (Ok (len dataset), tr)
    /\ concat (snd <$> upsert_calls tr)
       = imap (fun i item =>
                 {| id := Z.of_nat i;
                    vector :=
                      NamedVector "dense"
                        (encode_text service
                           (item_get item "title" +:+ " "
                            +:+ item_get item "description"));
                    payload := item |})
              dataset.
Proof.
  intros B embeddings HB Hmax Hacc.
  assert (embeddings
          = (fun item =>
               encode_text service
                 (item_get item "title" +:+ " "
                  +:+ item_get item "description")) <$> dataset) as Hemb.
  { subst embeddings. unfold encode_dataset.
    by rewrite encode_batch_map, <- list_fmap_compose. }
  assert (length dataset = length embeddings) as Hlen.
  { by rewrite Hemb, length_fmap. }
  destruct (upload_batch_accepted_run self collection_name dataset
              embeddings true "dense")
    as (tr & Hrun & Hcalls & _); try done.
  exists tr. split; [done|].
  rewrite Hcalls, <- list_fmap_compose.
  etrans; [apply (batch_points_concat true "dense" dataset embeddings B);
           done|].
  rewrite Hemb. clear.
  assert (forall (o : Z) (items : list Embeddings.Item),
    imap (fun j => point_of true "dense" (o + Z.of_nat j))
         (zip items
              ((fun item =>
                  encode_text service
                    (item_get item "title" +:+ " "
                     +:+ item_get item "description")) <$> items))
    = imap (fun i item =>
              {| id := o + Z.of_nat i;
                 vector :=
                   NamedVector "dense"
                     (encode_text service
                        (item_get item "title" +:+ " "
                         +:+ item_get item "description"));
                 payload := item |})
           items) as Hzip.
  { intros o items. revert o.
    induction items as [|item items IH]; intros o; [done|].
    cbn [fmap list_fmap zip_with]. rewrite !imap_cons. f_equal.
    rewrite (imap_ext _ (fun j => point_of true "dense"
                                           (Z.succ o + Z.of_nat j)))
      by (intros j x _; cbn; f_equal; lia).
    rewrite IH. apply imap_ext. intros j x _. cbn. f_equal. lia. }
  apply (Hzip 0 dataset).
Qed.

End EncodeThenUpload.

Section QuantizedLayout.

Import Manager ManagerSpec.

(** X23.  Recreating a collection as "quantized" with a quantization
    succeeds, and the collection the service then holds keeps its original
    vectors on disk, with the size and distance of the configuration and
    the quantization given, whatever the [on_disk] flag of the collection
    configuration says. *)
Theorem recreate_quantized_on_disk (self : QdrantCollectionManager)
    (collection_name : string) (scheme : QuantizationConfig) (w : world) :
  exists w',
    recreate_collection self collection_name "quantized" (Some scheme) w
    = (Ok tt, w')
    /\ collections w' !! collection_name
       = Some {| vectors_config :=
                   SingleVector
                     {| params_size := vector_size (embedding_config self);
                        params_distance :=
                          distance (collection_config self);
                        params_on_disk := Some true |};
                 sparse_vectors_config := [];
                 quantization_config := Some scheme |}.
Proof.
  eexists. split.
  - by apply recreate_collection_creates.
  - cbn [collections]. apply lookup_insert_eq.
Qed.

End QuantizedLayout.

(** Recreating "products" as a hybrid collection on the service that holds
    it as a standard one. *)
Lemma recreate_collection_replaces_witness :
  exists w',
    Manager.recreate_collection ManagerSpec.default_manager "products"
      "hybrid" None ManagerSpec.one_collection
    = (Ok tt, w')
    /\ Manager.sparse_vectors_config <$> Manager.collections w' !! "products"
       = Some [("sparse", {| Manager.index_on_disk := false |})].
Proof.
  destruct (recreate_collection_replaces ManagerSpec.default_manager
              "products" "hybrid" None _ ManagerSpec.one_collection
              eq_refl)
    as (w' & Hrun & Hheld & _).
  exists w'. split; [exact Hrun|]. by rewrite Hheld.
Defined.

(** Recreating "fresh" twice as a standard collection. *)
Lemma recreate_collection_twice_witness :
  exists w1 w2,
    Manager.recreate_collection ManagerSpec.default_manager "fresh"
      "standard" None ManagerSpec.one_collection
    = (Ok tt, w1)
    /\ Manager.recreate_collection ManagerSpec.default_manager "fresh"
         "standard" None w1
       = (Ok tt, w2)
    /\ Manager.collections w2 = Manager.collections w1.
Proof.
  destruct (recreate_collection_twice ManagerSpec.default_manager
              "fresh" "standard" None _ ManagerSpec.one_collection eq_refl)
    as (w1 & w2 & Hrun1 & Hrun2 & Hsame & _).
  by exists w1, w2.
Defined.

(** Two items, one without a description, encoded and uploaded in one
    batch. *)
Lemma encode_then_upload_witness :
  exists tr,
    Uploader.upload_batch
      (Scenario.uploader Scenario.accepting 50 false 3 2) "bench"
      CorpusScenario.two_items
      (Embeddings.encode_dataset BenchSpec.length_embedding
         CorpusScenario.two_items "description" "title" true)
      true "dense" []
    = (Ok 2, tr)
    /\ Uploader.id <$> concat (snd <$> Uploader.upsert_calls tr) = [0; 1].
Proof.
  destruct (encode_then_upload BenchSpec.length_embedding
              (Scenario.uploader Scenario.accepting 50 false 3 2) "bench"
              CorpusScenario.two_items)
    as (tr & Hrun & Hpoints).
  - cbn. lia.
  - cbn. discriminate.
  - intros i _. reflexivity.
  - exists tr. split; [exact Hrun|]. by rewrite Hpoints.
Defined.

(** ** A retry budget spent in the middle of an upload *)

Section PartialUpload.

Context {Item : Type}.

Import Uploader UploadSpec.

(** X24.  Upload with retry enabled; batch [t] fails with a transient error
    at every attempt of the budget.  The upload ends with the error of the
    last attempt; the batches before [t] have been sent once each and stay
    sent, batch [t] has been sent as many times as the budget allows, with
    the linear waits in between, and no later batch is sent. *)
Theorem upload_partial_after_exhausted_budget (self : DataUploader)
    (collection_name : string) (dataset : list Item)
    (embeddings : list Vector) (named_vector : bool) (vector_name : string)
    (t j : nat) (msg : string) :
  let B := batch_size (config self) in
  let points :=
    batch_points named_vector vector_name B dataset embeddings in
  length dataset = length embeddings ->
  0 < B ->
  enable_retry (config self) = true ->
  max_retries (config self) = Z.of_nat (S j) ->
  (t < batch_count (len dataset) B)%nat ->
  accepted_from (client self) 0 t ->
  transient_from (client self) t j ->
  upsert_reply (client self) (t + j) = Some (ResponseHandlingException msg) ->
  exists tr,
    upload_batch self collection_name dataset embeddings named_vector
                 vector_name []
    = (Raise (ResponseHandlingException msg), tr)
    /\ upsert_calls tr
       = ((fun k => (collection_name, points k)) <$> seq 0 t)
         ++ replicate (S j) (collection_name, points t)
    /\ sleep_calls tr
       = (fun a => (initial_backoff (config self) * inject_Z a)%Q)
         <$> seqZ 1 (Z.of_nat j).
Proof.
  intros B points Hlen HB Hretry Hmax Ht Hacc Hfail Hlast.
  destruct (upload_loop_accepted self collection_name dataset embeddings
              named_vector vector_name (seq 0 t)
              ((fun k => Z.of_nat k * B)
               <$> t :: seq (S t) (batch_count (len dataset) B - S t))
              0 [])
    as (before & Hrun & Hcalls & Hsleeps); [done|lia| |].
  { by rewrite length_seq. }
  cbn [app] in Hrun.
  assert (length (upsert_calls before) = t) as Hcount.
  { by rewrite Hcalls, length_fmap, length_seq. }
  exists (before
          ++ RetryEntered (Z.of_nat t)
             :: failed_attempts collection_name (points t)
                                (initial_backoff (config self)) 0 j
             ++ [Upsert collection_name (points t)]).
  split; [|split].
  - unfold upload_batch.
    destruct (Z.eqb_spec (len dataset) (len embeddings)) as [_|Hne];
      [|unfold len in Hne; lia].
    cbn [negb]. rewrite range_batches by (unfold len; lia).
    change (Z.to_nat ((len dataset + batch_size (config self) - 1)
                      / batch_size (config self)))
      with (batch_count (len dataset) B).
    replace (batch_count (len dataset) B)
      with (t + S (batch_count (len dataset) B - S t))%nat at 1 by lia.
    rewrite seq_app, fmap_app. cbn [Nat.add].
    etrans; [exact Hrun|].
    cbn [fmap list_fmap upload_loop]. fold B.
    rewrite prepare_points_batch by done. fold points. rewrite Hretry.
    unfold bind at 1. unfold _upload_with_retry.
    unfold bind at 1. unfold enter_retry at 1.
    rewrite Hmax, (retry_loop_exhausted _ _ _ _ _ msg).
    + rewrite Z.div_mul by lia. by rewrite <- app_assoc.
    + lia.
    + intros i Hi. destruct (Hfail i Hi) as [m Hm]. exists m.
      rewrite <- Hm. f_equal.
      rewrite upsert_calls_app, length_app, Hcount. cbn. lia.
    + rewrite <- Hlast. f_equal.
      rewrite upsert_calls_app, length_app, Hcount. cbn. lia.
  - rewrite upsert_calls_app, Hcalls. f_equal.
    change (upsert_calls (RetryEntered (Z.of_nat t) :: ?l))
      with (upsert_calls l).
    rewrite upsert_calls_app, failed_attempts_upserts.
    change (S j) with (1 + j)%nat. rewrite Nat.add_comm, replicate_add.
    reflexivity.
  - rewrite sleep_calls_app, Hsleeps. cbn [app].
    change (sleep_calls (RetryEntered (Z.of_nat t) :: ?l))
      with (sleep_calls l).
    rewrite sleep_calls_app, failed_attempts_sleeps.
    cbn [sleep_calls omap]. by rewrite app_nil_r.
Qed.

End PartialUpload.

(** Six items in batches of 2, a budget of 2, the service down from its
    second upsert on: the first batch stays uploaded, the second is sent
    twice, the third never. *)
Lemma upload_partial_witness :
  exists tr,
    Uploader.upload_batch
      (Scenario.uploader
         {| Uploader.upsert_reply := fun k =>
              if (k <? 1)%nat then None
              else Some (ResponseHandlingException "Timeout") |}
         2 true 2 2)
      "bench" (Scenario.items 6) (Scenario.vectors 6) true "dense" []
    = (Raise (ResponseHandlingException "Timeout"), tr)
    /\ Scenario.uploaded_ids tr = [[0; 1]; [2; 3]; [2; 3]]
    /\ Uploader.sleep_calls tr = [2%Q].
Proof.
  destruct (upload_partial_after_exhausted_budget
              (Scenario.uploader
                 {| Uploader.upsert_reply := fun k =>
                      if (k <? 1)%nat then None
                      else Some (ResponseHandlingException "Timeout") |}
                 2 true 2 2)
              "bench" (Scenario.items 6) (Scenario.vectors 6) true "dense"
              1 1 "Timeout")
    as (tr & Hrun & Hups & Hsleeps).
  - reflexivity.
  - cbn. lia.
  - reflexivity.
  - reflexivity.
  - vm_compute. lia.
  - intros i Hi. assert (i = 0%nat) as -> by lia. reflexivity.
  - intros i Hi. assert (i = 0%nat) as -> by lia. by exists "Timeout".
  - reflexivity.
  - exists tr. split; [exact Hrun|].
    unfold Scenario.uploaded_ids. rewrite Hups, Hsleeps. by split.
Defined.
